(** * Stylistic extractor: a shallow embedding of the sample-to-prompt pipeline

    Source files embedded here:
    - [src/coding_stylistic_extractor.py]  (class [StylisticExtractorUtils], [main])
    - [src/writing_stylistic_extractor.py] (class [WritingStylisticExtractorUtils], [main])

    The two files have the same shape; they differ in the default extension
    list, the size metric ([splitlines] against [split]), the labelled block
    of a sample and the text of the prompt template.  The embedding is one
    pipeline with a parameter [pl : Pipeline] at exactly those places.

    Python values are modelled as follows.
    - [str] is a list of Unicode code points ([N]).
    - [pathlib.Path] is a record of an anchor and the list of name parts.
    - A method is a function in the monad [M]: it threads the mutable state
      ([State]), may raise ([Raise e], keeping the mutations made so far, as
      in Python) and records every state it passes through ([trace]).
    - The world outside the process (directory listings, file reads, the
      model endpoint, the environment variable, write permission) is a
      record of oracles, [Env], fixed during a run. *)

From Stdlib Require Import String Ascii.
From stdpp Require Import base option list gmap.

Local Open Scope N_scope.
Local Open Scope list_scope.

(** ** Text *)

(** A literal of the source, character by character. *)
Definition lit (s : string) : list N :=
  List.map N_of_ascii (list_ascii_of_string s).
Arguments lit s%_string.

(** [sep.join(l)] *)
Fixpoint join (sep : list N) (l : list (list N)) : list N :=
  match l with
  | [] => []
  | [x] => x
  | x :: rest => x ++ sep ++ join sep rest
  end.

(** [Py_UNICODE_ISLINEBREAK]: the line boundaries of [str.splitlines]. *)
Definition is_linebreak (c : N) : bool :=
  ((10 <=? c) && (c <=? 13)) || ((28 <=? c) && (c <=? 30))
  || (c =? 133) || (c =? 8232) || (c =? 8233).

(** [Py_UNICODE_ISSPACE]: the separators of [str.split()] without argument. *)
Definition isspace (c : N) : bool :=
  ((9 <=? c) && (c <=? 13)) || ((28 <=? c) && (c <=? 32))
  || (c =? 133) || (c =? 160) || (c =? 5760)
  || ((8192 <=? c) && (c <=? 8202))
  || (c =? 8232) || (c =? 8233) || (c =? 8239) || (c =? 8287) || (c =? 12288).

(** [s.splitlines()]: break at every line boundary, [\r\n] counting as one;
    no empty line is produced after a final boundary. *)
Fixpoint splitlines (s : list N) : list (list N) :=
  match s with
  | [] => []
  | c :: rest =>
      if is_linebreak c then
        [] :: (if c =? 13 then
                 match rest with
                 | 10 :: r => splitlines r
                 | _ => splitlines rest
                 end
               else splitlines rest)
      else match splitlines rest with
           | [] => [[c]]
           | l :: ls => (c :: l) :: ls
           end
  end.

(** [s.split()]: maximal runs of characters that are not whitespace. *)
Fixpoint split (s : list N) : list (list N) :=
  match s with
  | [] => []
  | c :: rest =>
      if isspace c then split rest
      else match rest with
           | [] => [[c]]
           | c' :: _ =>
               if isspace c' then [c] :: split rest
               else match split rest with
                    | [] => [[c]]
                    | w :: ws => (c :: w) :: ws
                    end
           end
  end.

(** ** Paths *)

(** [pathlib.PurePath]: [anchor] is the drive and root ([""] for a relative
    path, ["/"] for an absolute POSIX path), [parts] the names after it. *)
Record Path := { anchor : list N; parts : list (list N) }.

(** [root / rel] for a relative tail [rel]. *)
Definition joinpath (root : Path) (rel : list (list N)) : Path :=
  {| anchor := anchor root; parts := parts root ++ rel |}.

(** [filepath.name] *)
Definition name (p : Path) : list N := List.last (parts p) [].

(** [str(p)] for a path without anchor (POSIX flavour). *)
Definition str_of_parts (l : list (list N)) : list N :=
  match l with
  | [] => lit "."
  | _ => join (lit "/") l
  end.

(** [str(p)] *)
Definition str_of_path (p : Path) : list N :=
  match anchor p, parts p with
  | [], l => str_of_parts l
  | a, l => a ++ join (lit "/") l
  end.

Fixpoint strip_prefix (pre l : list (list N)) : option (list (list N)) :=
  match pre, l with
  | [], _ => Some l
  | x :: pre', y :: l' => if decide (x = y) then strip_prefix pre' l' else None
  | _ :: _, [] => None
  end.

(** ** Exceptions and results *)

Inductive exn :=
| OSError (msg : list N)
| UnicodeError (msg : list N)
| ValueError (msg : list N)
| IndexError
| AttributeError
| APIError (msg : list N).

Inductive result (A : Type) :=
| Ok (a : A)
| Raise (e : exn).
Arguments Ok {A} a.
Arguments Raise {A} e.

(** [p.relative_to(root)]: the tail of [p] below [root]; [ValueError] when
    [p] is not located under [root]. *)
Definition relative_to (p root : Path) : result (list (list N)) :=
  if decide (anchor p = anchor root) then
    match strip_prefix (parts root) (parts p) with
    | Some rel => Ok rel
    | None => Raise (ValueError (str_of_path p))
    end
  else Raise (ValueError (str_of_path p)).

(** ** Data model *)

(** The two source files. *)
Inductive Pipeline := Coding | Writing.

Inductive Role := user | assistant.

#[global] Instance Role_eq_dec : EqDecision Role.
Proof. solve_decision. Defined.

(** One entry of [conversation_history]: [{"role": ..., "content": ...}]. *)
Record Turn := { role : Role; turn_content : list N }.

(** One entry of the list returned by [read_files]:
    [{"path": ..., "content": ..., "lines": ...}] in the coding file,
    [{"path": ..., "content": ..., "words": ...}] in the writing file. *)
Record Sample := { path : list N; content : list N; size_metric : nat }.

(** The keyword arguments of [client.messages.create]. *)
Record Request := { model : list N; max_tokens : Z; messages : list Turn }.

(** The reply: [message.content] is a list of blocks, of which the code reads
    [message.content[0].text]; [message.usage] carries the token counts. *)
Inductive ContentBlock :=
| TextBlock (text : list N)
| OtherBlock.

Record Message := {
  blocks : list ContentBlock;
  input_tokens : Z;
  output_tokens : Z
}.

(** What [print] writes, one constructor for each call site, carrying the
    interpolated values. *)
Inductive Line :=
| Banner
| Title (pl : Pipeline)
| ErrNotExist (dir : list N)
| ErrNotDir (dir : list N)
| Found (n : nat)
| ReadMsg (n : nat) (shown : list N)
| ErrorReading (file_name : list N) (e : exn)
| Total (total files_read : nat)
| NoFilesFound
| NoSamplesRead
| Analyzing
| DraftGenerated
| InputTokens (n : Z)
| OutputTokens (n : Z)
| NoContentToSave
| SavedDraft (to : list N)
| ErrorSaving (e : exn)
| Complete.

(** ** The world outside the process *)

Record Env := {
  (** [Path(p).exists()] and [Path(p).is_dir()] *)
  path_exists : Path -> bool;
  path_is_dir : Path -> bool;
  (** [os.makedirs(d, exist_ok=True)] *)
  makedirs : list N -> result unit;
  (** [root.rglob(pattern)], as tails relative to [root], in traversal order *)
  rglob_rel : Path -> list N -> list (list (list N));
  (** [open(p, 'r', encoding='utf-8')] followed by [read()] *)
  read_text : Path -> result (list N);
  (** [os.getenv("ANTHROPIC_API_KEY")] *)
  getenv_api_key : option (list N);
  (** [anthropic.Anthropic(api_key=k)] *)
  new_client : option (list N) -> result unit;
  (** the endpoint behind [client.messages.create], for a client built with
      the given key *)
  messages_create : option (list N) -> Request -> result Message;
  (** [open(p, 'w', encoding='utf-8')] *)
  open_w : list N -> result unit
}.

(** [root.rglob(pattern)]: every match is [root] joined with a tail. *)
Definition rglob (env : Env) (root : Path) (pattern : list N) : list Path :=
  List.map (joinpath root) (rglob_rel env root pattern).

(** ** Mutable state *)

(** The fields of the extractor object that its methods assign
    ([conversation_history], [current_draft]) together with what the process
    does to the outside: the text files it has written ([files], by path),
    the lines printed, the requests sent to the endpoint and the paths it
    has tried to open for writing. *)
Record State := {
  conversation_history : list Turn;
  current_draft : option (list N);
  files : gmap (list N) (list N);
  stdout : list Line;
  requests : list Request;
  opened_for_write : list (list N)
}.

(** The fields of the extractor object that are assigned once in [__init__]. *)
Record Self := {
  repo_path : Path;
  output_file : list N;
  client : option (list N)
}.

(** ** The monad of methods *)

#[projections(primitive)]
Record Outcome (A : Type) := {
  res : result A;
  final : State;
  trace : list State
}.
Arguments res {A} o.
Arguments final {A} o.
Arguments trace {A} o.

Definition M (A : Type) : Type := State -> Outcome A.

#[global] Instance M_ret : MRet M := fun A a s =>
  {| res := Ok a; final := s; trace := [] |}.

#[global] Instance M_bind : MBind M := fun A B k m s =>
  let o := m s in
  match res o with
  | Ok a =>
      let o' := k a (final o) in
      {| res := res o'; final := final o'; trace := trace o ++ trace o' |}
  | Raise e => {| res := Raise e; final := final o; trace := trace o |}
  end.

Definition get : M State := fun s => {| res := Ok s; final := s; trace := [] |}.

(** One assignment: the new state is a point of the run. *)
Definition modify (f : State -> State) : M unit := fun s =>
  {| res := Ok tt; final := f s; trace := [f s] |}.

Definition raise {A} (e : exn) : M A := fun s =>
  {| res := Raise e; final := s; trace := [] |}.

(** The outcome of an oracle. *)
Definition lift {A} (r : result A) : M A :=
  match r with
  | Ok a => mret a
  | Raise e => raise e
  end.

(** [try: m  except Exception as e: handler e] *)
Definition try_except {A} (m : M A) (handler : exn -> M A) : M A := fun s =>
  let o := m s in
  match res o with
  | Ok _ => o
  | Raise e =>
      let o' := handler e (final o) in
      {| res := res o'; final := final o'; trace := trace o ++ trace o' |}
  end.

Definition set_history (h : list Turn) (s : State) : State :=
  {| conversation_history := h; current_draft := current_draft s;
     files := files s; stdout := stdout s; requests := requests s;
     opened_for_write := opened_for_write s |}.

Definition set_draft (d : option (list N)) (s : State) : State :=
  {| conversation_history := conversation_history s; current_draft := d;
     files := files s; stdout := stdout s; requests := requests s;
     opened_for_write := opened_for_write s |}.

Definition set_files (fs : gmap (list N) (list N)) (s : State) : State :=
  {| conversation_history := conversation_history s;
     current_draft := current_draft s;
     files := fs; stdout := stdout s; requests := requests s;
     opened_for_write := opened_for_write s |}.

Definition add_line (l : Line) (s : State) : State :=
  {| conversation_history := conversation_history s;
     current_draft := current_draft s;
     files := files s; stdout := stdout s ++ [l]; requests := requests s;
     opened_for_write := opened_for_write s |}.

Definition add_request (r : Request) (s : State) : State :=
  {| conversation_history := conversation_history s;
     current_draft := current_draft s;
     files := files s; stdout := stdout s; requests := requests s ++ [r];
     opened_for_write := opened_for_write s |}.

Definition add_opened (p : list N) (s : State) : State :=
  {| conversation_history := conversation_history s;
     current_draft := current_draft s;
     files := files s; stdout := stdout s; requests := requests s;
     opened_for_write := opened_for_write s ++ [p] |}.

(** [print(...)] *)
Definition print (l : Line) : M unit := modify (add_line l).

(** [self.conversation_history.append(t)] *)
Definition append_history (t : Turn) : M unit :=
  modify (fun s => set_history (conversation_history s ++ [t]) s).

(** ** The prompt template

    The f-string of [extraction], line by line: the lines before the
    placeholder line [{combined_code}] and the lines after it. *)

Definition coding_template_before : list (list N) :=
  [
    lit "I want you to analyze these Python files from a coding samples repository and create a comprehensive coding style guide.";
    lit "";
    lit "IMPORTANT: These files are SAMPLES of my personal coding style. The specific application context is NOT part of my coding style. Focus ONLY on the coding patterns, conventions, and formatting choices that are consistent across all samples, regardless of what the code does.";
    lit "";
    lit "Your task is to:";
    lit "";
    lit "1. **Identify patterns and conventions** that appear consistently across all files";
    lit "2. **Create a detailed markdown style guide** that captures my personal and distinctive coding style patterns";
    lit "3. **Include specific snippet examples** from my actual code showing the STYLE, not the application logic";
    lit "4. **Make it prescriptive** so another AI could replicate my style exactly when writing ANY type of Python code";
    lit "";
    lit "Analyze these aspects:";
    lit "";
    lit "**Documentation:**";
    lit "- Docstring format (Google/NumPy/Sphinx style?)";
    lit "- What sections do I include? (Args, Returns, etc.)";
    lit "- Level of detail in docstrings";
    lit "- Module-level documentation patterns";
    lit "- How I describe parameters and return values";
    lit "";
    lit "**Type Hints:**";
    lit "- Where and when do I use type annotations?";
    lit "- Always on function signatures? Sometimes on variables?";
    lit "- Complex types (Union, Optional, List, Dict patterns)";
    lit "";
    lit "**Naming Conventions:**";
    lit "- Variable naming (length, descriptiveness, patterns)";
    lit "- Function naming (verbs, patterns)";
    lit "- Class naming";
    lit "- Constants (if any)";
    lit "- Private/protected members (underscore usage)";
    lit "";
    lit "**Code Organization:**";
    lit "- Import ordering and grouping";
    lit "- Class structure (method ordering, organization)";
    lit "- File structure patterns";
    lit "- Global variables and constants placement";
    lit "";
    lit "**Comments:**";
    lit "- When do I add comments?";
    lit "- Inline vs block comments";
    lit "- Comment style and detail level";
    lit "- What do I explain vs what do I leave uncommented?";
    lit "";
    lit "**Code Style:**";
    lit "- Line length preferences";
    lit "- Indentation patterns";
    lit "- Blank line usage";
    lit "- String quotes (single vs double)";
    lit "";
    lit "**Python Idioms:**";
    lit "- List/dict comprehensions usage";
    lit "- Use of decorators";
    lit "- Context managers";
    lit "- Generators and iterators";
    lit "- Exception handling patterns";
    lit "";
    lit "**Distinctive Patterns:**";
    lit "- Any unique or characteristic patterns you notice";
    lit "- Preferred libraries or approaches";
    lit "- Code complexity preferences";
    lit "- How I structure error handling";
    lit "- Logging patterns";
    lit "";
    lit "REMEMBER: Extract only the STYLE patterns that are consistent across samples. Do NOT include application-specific conventions. Focus on HOW I write code, not WHAT the code does.";
    lit "";
    lit "Here are my Python code samples:";
    lit ""
  ].

Definition coding_template_after : list (list N) :=
  [
    lit "";
    lit "Create a markdown document with clear sections, snippet examples showing STYLE patterns, and actionable rules.";
    lit "Format it as a professional style guide that could be given to a coding agent for writing ANY Python code in my style."
  ].

Definition writing_template_before : list (list N) :=
  [
    lit "I want you to analyze these writing samples and create a comprehensive writing style guide.";
    lit "";
    lit "IMPORTANT: These texts are SAMPLES of my personal writing style. The specific subject matter is NOT part of my writing style. Focus ONLY on the writing patterns, conventions, and stylistic choices that are consistent across all samples, regardless of what the content is about.";
    lit "";
    lit "Your task is to:";
    lit "";
    lit "1. **Identify patterns and conventions** that appear consistently across all writing samples";
    lit "2. **Create a detailed markdown style guide** that captures my personal and distinctive writing style";
    lit "3. **Include specific examples** from my actual writing showing the STYLE, not the subject matter";
    lit "4. **Make it prescriptive** so another AI could replicate my style exactly when writing about ANY topic";
    lit "";
    lit "Analyze these aspects:";
    lit "";
    lit "**Sentence Structure:**";
    lit "- Sentence length patterns (short, medium, long, varied)";
    lit "- Complexity (simple, compound, complex sentences)";
    lit "- Use of subordinate clauses";
    lit "- Parallel structure usage";
    lit "";
    lit "**Paragraph Organization:**";
    lit "- Paragraph length preferences";
    lit "- Topic sentence patterns";
    lit "- How ideas are developed within paragraphs";
    lit "- Transition patterns between paragraphs";
    lit "";
    lit "**Vocabulary and Word Choice:**";
    lit "- Formality level (academic, professional, casual)";
    lit "- Technical vs. accessible language balance";
    lit "- Specific vs. general terminology";
    lit "- Active vs. passive voice preference";
    lit "";
    lit "**Tone and Voice:**";
    lit "- Academic, professional, conversational, authoritative";
    lit "- First person, third person usage";
    lit "- Objectivity vs. subjectivity";
    lit "- Hedging language patterns (may, might, could, possibly)";
    lit "";
    lit "**Punctuation Patterns:**";
    lit "- Comma usage patterns";
    lit "- Semicolon and colon usage";
    lit "- Em dash, parentheses usage";
    lit "- List formatting (numbered, bulleted)";
    lit "";
    lit "**Rhetorical Devices:**";
    lit "- Use of questions";
    lit "- Use of examples and analogies";
    lit "- Enumeration patterns (firstly, secondly, etc.)";
    lit "- Emphasis techniques (italics, bold, quotation marks)";
    lit "";
    lit "**Academic/Technical Writing Patterns:**";
    lit "- Citation style (if present)";
    lit "- How definitions are introduced";
    lit "- How concepts are explained";
    lit "- Use of technical jargon";
    lit "- Abbreviation patterns";
    lit "";
    lit "**Text Organization:**";
    lit "- How sections are structured";
    lit "- Use of headers and subheaders";
    lit "- Introduction and conclusion patterns";
    lit "- How arguments are built";
    lit "";
    lit "**Distinctive Patterns:**";
    lit "- Any unique or characteristic phrases";
    lit "- Preferred sentence openers";
    lit "- Preferred ways to introduce new concepts";
    lit "- Preferred ways to conclude ideas";
    lit "- Use of specific connectors (however, therefore, furthermore)";
    lit "";
    lit "REMEMBER: Extract only the WRITING STYLE patterns that are consistent across samples. Do NOT include subject-specific conventions. Focus on HOW I write, not WHAT I write about.";
    lit "";
    lit "Here are my writing samples:";
    lit ""
  ].

Definition writing_template_after : list (list N) :=
  [
    lit "";
    lit "Create a markdown document with clear sections, examples showing STYLE patterns, and actionable rules.";
    lit "Format it as a professional writing style guide that could be given to a writing assistant for producing ANY type of text in my style."
  ].

Definition template_before (pl : Pipeline) : list (list N) :=
  match pl with
  | Coding => coding_template_before
  | Writing => writing_template_before
  end.

Definition template_after (pl : Pipeline) : list (list N) :=
  match pl with
  | Coding => coding_template_after
  | Writing => writing_template_after
  end.

(** ** [__init__] *)

Definition init (env : Env) (repository_path : Path) (output_file_path : list N)
  : M Self :=
  let api_key := getenv_api_key env in
  lift (new_client env api_key);;
  modify (set_history []);;
  modify (set_draft None);;
  mret {| repo_path := repository_path; output_file := output_file_path;
          client := api_key |}.

(** ** [scan_repository] *)

Definition default_extensions (pl : Pipeline) : list (list N) :=
  match pl with
  | Coding => [lit ".py"]
  | Writing => [lit ".md"; lit ".txt"]
  end.

(** The inner loop over the matches of one extension: append, then test the
    length against [max_files] and leave this loop when it is reached. *)
Fixpoint scan_matches (max_files : Z) (matches code_files : list Path)
  : list Path :=
  match matches with
  | [] => code_files
  | filepath :: rest =>
      let code_files := code_files ++ [filepath] in
      if (Z.of_nat (length code_files) >=? max_files)%Z then code_files
      else scan_matches max_files rest code_files
  end.

(** The outer loop over the extensions. *)
Definition scan_extensions (env : Env) (self : Self) (max_files : Z)
    (extensions : list (list N)) : list Path :=
  fold_left
    (fun code_files ext =>
       scan_matches max_files (rglob env (repo_path self) (lit "*" ++ ext))
         code_files)
    extensions [].

Definition scan_repository (env : Env) (pl : Pipeline) (self : Self)
    (max_files : Z) (extensions : option (list (list N))) : M (list Path) :=
  let extensions :=
    match extensions with
    | None => default_extensions pl
    | Some extensions => extensions
    end in
  let code_files := scan_extensions env self max_files extensions in
  print (Found (length code_files));;
  mret code_files.

(** ** [read_files] *)

(** [len(content.splitlines())] in the coding file, [len(content.split())]
    in the writing file. *)
Definition count_size (pl : Pipeline) (content : list N) : nat :=
  match pl with
  | Coding => length (splitlines content)
  | Writing => length (split content)
  end.

(** The path shown in the progress line: [filepath] in the coding file,
    [filepath.name] in the writing file. *)
Definition shown_path (pl : Pipeline) (filepath : Path) : list N :=
  match pl with
  | Coding => str_of_path filepath
  | Writing => name filepath
  end.

(** The loop of [read_files] with its two local variables.  The body of the
    [try] is: open and read, count, add to the total, build the record (which
    calls [relative_to]), append it, print the progress line.  Whatever
    raises inside it is caught by [except Exception], which prints the
    error line; the loop goes on with the next path. *)
Fixpoint read_loop (env : Env) (pl : Pipeline) (self : Self)
    (filepaths : list Path) (samples : list Sample) (total_lines : nat)
  : M (list Sample * nat) :=
  match filepaths with
  | [] => mret (samples, total_lines)
  | filepath :: rest =>
      match read_text env filepath with
      | Raise e =>
          print (ErrorReading (name filepath) e);;
          read_loop env pl self rest samples total_lines
      | Ok content =>
          let lines := count_size pl content in
          let total_lines := (total_lines + lines)%nat in
          match relative_to filepath (repo_path self) with
          | Raise e =>
              print (ErrorReading (name filepath) e);;
              read_loop env pl self rest samples total_lines
          | Ok rel =>
              let samples :=
                samples ++ [{| path := str_of_parts rel; content := content;
                               size_metric := lines |}] in
              print (ReadMsg lines (shown_path pl filepath));;
              read_loop env pl self rest samples total_lines
          end
      end
  end.

Definition read_files (env : Env) (pl : Pipeline) (self : Self)
    (filepaths : list Path) : M (list Sample) :=
  '(samples, total_lines) ← read_loop env pl self filepaths [] 0%nat;
  print (Total total_lines (length samples));;
  mret samples.

(** ** [extraction] *)

(** The labelled block of one sample. *)
Definition block (pl : Pipeline) (sample : Sample) : list N :=
  match pl with
  | Coding =>
      lit "### File: " ++ path sample ++ [10] ++ lit "```python" ++ [10]
      ++ content sample ++ [10] ++ lit "```"
  | Writing => lit "### Sample: " ++ path sample ++ [10; 10] ++ content sample
  end.

(** [combined_code] / [combined_writing] *)
Definition combined (pl : Pipeline) (samples : list Sample) : list N :=
  join [10; 10] (List.map (block pl) samples).

(** [prompt]: the template with the placeholder line filled in. *)
Definition prompt (pl : Pipeline) (samples : list Sample) : list N :=
  join [10] (template_before pl ++ [combined pl samples] ++ template_after pl).

Definition request_of (prompt : list N) : Request :=
  {| model := lit "claude-sonnet-4-20250514";
     max_tokens := 8000;
     messages := [{| role := user; turn_content := prompt |}] |}.

(** [self.client.messages.create(...)]: the request leaves the process, then
    the endpoint answers or the call raises. *)
Definition create (env : Env) (self : Self) (r : Request) : M Message :=
  modify (add_request r);;
  lift (messages_create env (client self) r).

(** [message.content[0].text] *)
Definition first_text (message : Message) : result (list N) :=
  match blocks message with
  | [] => Raise IndexError
  | TextBlock text :: _ => Ok text
  | OtherBlock :: _ => Raise AttributeError
  end.

(** Reading [self.current_draft] where the source uses it as a [str]. *)
Definition draft_text (s : State) : list N :=
  match current_draft s with
  | Some d => d
  | None => []
  end.

Definition extraction (env : Env) (pl : Pipeline) (self : Self)
    (samples : list Sample) : M (list N) :=
  let prompt := prompt pl samples in
  print Analyzing;;
  message ← create env self (request_of prompt);
  text ← lift (first_text message);
  modify (set_draft (Some text));;
  append_history {| role := user; turn_content := prompt |};;
  s ← get;
  append_history {| role := assistant; turn_content := draft_text s |};;
  print DraftGenerated;;
  print (InputTokens (input_tokens message));;
  print (OutputTokens (output_tokens message));;
  s ← get;
  mret (draft_text s).

(** ** [save_draft] *)

(** UTF-8 encodes every code point except the surrogates. *)
Definition utf8_encodable (content : list N) : bool :=
  forallb (fun c => negb ((55296 <=? c) && (c <=? 57343))) content.

(** [with open(path, 'w', encoding='utf-8') as f: f.write(content)]:
    opening may raise and then leaves the file as it was; once open, the file
    is empty; [write] encodes the text, which raises on a surrogate, and the
    text is in the file when the block is left. *)
Definition write_file (env : Env) (path : list N) (content : list N) : M unit :=
  modify (add_opened path);;
  lift (open_w env path);;
  modify (fun s => set_files (<[path := []]> (files s)) s);;
  if utf8_encodable content then
    modify (fun s => set_files (<[path := content]> (files s)) s)
  else raise (UnicodeError content).

Definition save_draft (env : Env) (self : Self) (content : option (list N))
  : M unit :=
  s ← get;
  let content :=
    match content with
    | None => current_draft s
    | Some _ => content
    end in
  match content with
  | None => print NoContentToSave
  | Some content =>
      try_except
        (write_file env (output_file self) content;;
         print (SavedDraft (output_file self)))
        (fun e => print (ErrorSaving e))
  end.

(** ** [main] *)

Definition MAX_FILES : Z := 20.

(** [CODE_SAMPLES_DIR] / [WRITING_SAMPLES_DIR] *)
Definition SAMPLES_DIR (pl : Pipeline) : list N :=
  match pl with
  | Coding => lit "code_samples"
  | Writing => lit "writing_samples"
  end.

Definition SKILL_SET_DIR : list N := lit "skill_set".

(** [os.path.join(SKILL_SET_DIR, ...)] *)
Definition OUTPUT_FILE (pl : Pipeline) : list N :=
  SKILL_SET_DIR ++ lit "/" ++
  match pl with
  | Coding => lit "coding_stylistic_guide.md"
  | Writing => lit "writing_stylistic_guide.md"
  end.

(** [Path(d)] for a single relative name [d]. *)
Definition Path_of_name (d : list N) : Path := {| anchor := []; parts := [d] |}.

Definition main (env : Env) (pl : Pipeline) : M unit :=
  print Banner;;
  print (Title pl);;
  print Banner;;
  lift (makedirs env SKILL_SET_DIR);;
  if negb (path_exists env (Path_of_name (SAMPLES_DIR pl))) then
    print (ErrNotExist (SAMPLES_DIR pl))
  else if negb (path_is_dir env (Path_of_name (SAMPLES_DIR pl))) then
    print (ErrNotDir (SAMPLES_DIR pl))
  else
    extractor_utils ← init env (Path_of_name (SAMPLES_DIR pl)) (OUTPUT_FILE pl);
    code_files ← scan_repository env pl extractor_utils MAX_FILES
                   (Some (default_extensions pl));
    match code_files with
    | [] => print NoFilesFound
    | _ :: _ =>
        code_samples ← read_files env pl extractor_utils code_files;
        match code_samples with
        | [] => print NoSamplesRead
        | _ :: _ =>
            draft ← extraction env pl extractor_utils code_samples;
            save_draft env extractor_utils None;;
            print Complete
        end
    end.

(** The state of a process that has just started, with the text files that
    exist on disk. *)
Definition boot (fs : gmap (list N) (list N)) : State :=
  {| conversation_history := []; current_draft := None; files := fs;
     stdout := []; requests := []; opened_for_write := [] |}.

(** ** A small concrete environment

    Used to evaluate the methods on explicit inputs.  The disk is a list of
    files in traversal order, each with what reading it gives; a pattern
    [*ext] matches the files below the root whose name ends with [ext]. *)

#[global] Instance Path_eq_dec : EqDecision Path.
Proof. solve_decision. Defined.

Definition under (root : Path) (p : Path) : option (list (list N)) :=
  match relative_to p root with
  | Ok rel => Some rel
  | Raise _ => None
  end.

Definition matches_pattern (pattern : list N) (rel : list (list N)) : bool :=
  match pattern with
  | 42 :: ext => bool_decide (ext `suffix_of` List.last rel [])
  | _ => false
  end.

Fixpoint lookup_disk (disk : list (Path * result (list N))) (p : Path)
  : result (list N) :=
  match disk with
  | [] => Raise (OSError (lit "No such file or directory"))
  | (q, r) :: rest => if decide (q = p) then r else lookup_disk rest p
  end.

Definition disk_env (disk : list (Path * result (list N)))
    (api_key : option (list N)) (endpoint : Request -> result Message)
    (writable : bool) : Env :=
  {| path_exists := fun p =>
       bool_decide (Exists (fun e => is_Some (under p (fst e))) disk);
     path_is_dir := fun p =>
       bool_decide (Exists (fun e => is_Some (under p (fst e)) /\ fst e <> p) disk);
     makedirs := fun _ => Ok tt;
     rglob_rel := fun root pattern =>
       List.filter (matches_pattern pattern) (omap (fun e => under root (fst e)) disk);
     read_text := lookup_disk disk;
     getenv_api_key := api_key;
     new_client := fun _ => Ok tt;
     messages_create := fun _ r => endpoint r;
     open_w := fun _ =>
       if writable then Ok tt else Raise (OSError (lit "Permission denied")) |}.

Definition file_at (dir file : string) : Path :=
  {| anchor := []; parts := [lit dir; lit file] |}.

Definition coding_self : Self :=
  {| repo_path := Path_of_name (SAMPLES_DIR Coding);
     output_file := OUTPUT_FILE Coding; client := None |}.

Definition writing_self : Self :=
  {| repo_path := Path_of_name (SAMPLES_DIR Writing);
     output_file := OUTPUT_FILE Writing; client := None |}.

Definition reply_with (text : list N) (r : Request) : result Message :=
  Ok {| blocks := [TextBlock text]; input_tokens := 10; output_tokens := 1 |}.

Definition endpoint_down (r : Request) : result Message :=
  Raise (APIError (lit "connection error")).

Definition one_py : list (Path * result (list N)) :=
  [(file_at "code_samples" "a.py", Ok (lit "x = 1"))].

Definition md_and_txt : list (Path * result (list N)) :=
  [(file_at "writing_samples" "a.md", Ok (lit "one"));
   (file_at "writing_samples" "b.md", Ok (lit "two"));
   (file_at "writing_samples" "c.txt", Ok (lit "three"))].

(** ** The loader, file by file

    What the body of the [try] in [read_files] computes for one path. *)

Definition load (env : Env) (pl : Pipeline) (self : Self) (filepath : Path)
  : result Sample :=
  match read_text env filepath with
  | Raise e => Raise e
  | Ok content =>
      match relative_to filepath (repo_path self) with
      | Raise e => Raise e
      | Ok rel =>
          Ok {| path := str_of_parts rel; content := content;
                size_metric := count_size pl content |}
      end
  end.

Definition to_option {A} (r : result A) : option A :=
  match r with
  | Ok a => Some a
  | Raise _ => None
  end.

Definition is_raise {A} (r : result A) : bool :=
  match r with
  | Ok _ => false
  | Raise _ => true
  end.

(** The samples of the paths whose step does not raise, in input order. *)
Definition loaded (env : Env) (pl : Pipeline) (self : Self)
    (filepaths : list Path) : list Sample :=
  omap (fun p => to_option (load env pl self p)) filepaths.


(** A path fails in the body of the [try]: it fails to read, or it is read
    and is not located under the repository root. *)
Definition load_fails (env : Env) (self : Self) (p : Path) : bool :=
  is_raise (read_text env p) || is_raise (relative_to p (repo_path self)).

(** The line printed for one path. *)
Definition progress_line (env : Env) (pl : Pipeline) (self : Self) (p : Path)
  : Line :=
  match load env pl self p with
  | Ok sample => ReadMsg (size_metric sample) (shown_path pl p)
  | Raise e => ErrorReading (name p) e
  end.

(** The total that [read_files] prints: the sizes of the files it could
    read, whether or not a sample was made of them. *)
Definition lines_counted (env : Env) (pl : Pipeline) (filepaths : list Path)
  : nat :=
  fold_right
    (fun p n =>
       (match read_text env p with
        | Ok text => count_size pl text
        | Raise _ => 0
        end + n)%nat)
    0%nat filepaths.


Definition add_lines (ls : list Line) (s : State) : State :=
  fold_left (fun s l => add_line l s) ls s.




(** ** Size metrics, as counts

    Three ways of counting, written without building the pieces: the
    segments delimited by the newline character, the segments delimited by
    any line boundary of [str.splitlines], and the tokens delimited by
    whitespace.  [pending] says that characters have been seen since the
    last delimiter. *)

Fixpoint newline_segments_from (pending : bool) (s : list N) : nat :=
  match s with
  | [] => if pending then 1%nat else 0%nat
  | c :: rest =>
      if c =? 10 then S (newline_segments_from false rest)
      else newline_segments_from true rest
  end.

(** The lines ended by a newline, and the unfinished last one if any. *)
Definition newline_segments (s : list N) : nat := newline_segments_from false s.

(** The number of newline characters. *)
Definition newline_count (s : list N) : nat := length (List.filter (N.eqb 10) s).

Fixpoint boundary_segments_from (pending : bool) (s : list N) : nat :=
  match s with
  | [] => if pending then 1%nat else 0%nat
  | c :: rest =>
      if is_linebreak c then
        S (if c =? 13 then
             match rest with
             | 10 :: r => boundary_segments_from false r
             | _ => boundary_segments_from false rest
             end
           else boundary_segments_from false rest)
      else boundary_segments_from true rest
  end.

Definition boundary_segments (s : list N) : nat := boundary_segments_from false s.

(** The newline is the only line boundary that occurs in [s]. *)
Definition only_newline_breaks (s : list N) : bool :=
  forallb (fun c => negb (is_linebreak c) || (c =? 10)) s.

Fixpoint token_starts (after_space : bool) (s : list N) : nat :=
  match s with
  | [] => 0%nat
  | c :: rest =>
      if isspace c then token_starts true rest
      else ((if after_space then 1 else 0) + token_starts false rest)%nat
  end.

(** The number of places where a run of non-whitespace characters begins. *)
Definition whitespace_tokens (s : list N) : nat := token_starts true s.

Definition counted (pl : Pipeline) (s : list N) : nat :=
  match pl with
  | Coding => boundary_segments s
  | Writing => whitespace_tokens s
  end.

(** A source file with a form feed between two sections. *)
Definition paged_source : list N :=
  lit "x = 1" ++ [10; 12; 10] ++ lit "y = 2" ++ [10].

Definition paged_disk : list (Path * result (list N)) :=
  [(file_at "code_samples" "a.py", Ok paged_source)].

Definition paged_env : Env := disk_env paged_disk None endpoint_down true.

(** ** The layout of the prompt *)

(** What stands before the path, between the path and the content, and
    after the content in the block of a sample. *)
Definition heading (pl : Pipeline) : list N :=
  match pl with
  | Coding => lit "### File: "
  | Writing => lit "### Sample: "
  end.

Definition between (pl : Pipeline) : list N :=
  match pl with
  | Coding => [10] ++ lit "```python" ++ [10]
  | Writing => [10; 10]
  end.

Definition closing (pl : Pipeline) : list N :=
  match pl with
  | Coding => [10] ++ lit "```"
  | Writing => []
  end.

(** The template text before the first block and after the last one. *)
Definition preamble (pl : Pipeline) : list N :=
  join [10] (template_before pl) ++ [10].

Definition postamble (pl : Pipeline) : list N :=
  [10] ++ join [10] (template_after pl).

(** The blocks of the samples that come earlier, each followed by the blank
    line, and of those that come later, each preceded by it. *)
Definition blocks_before (pl : Pipeline) (samples : list Sample) : list N :=
  concat (List.map (fun x => block pl x ++ [10; 10]) samples).

Definition blocks_after (pl : Pipeline) (samples : list Sample) : list N :=
  concat (List.map (fun x => [10; 10] ++ block pl x) samples).

(** The sample without its size. *)
Definition text_of (sample : Sample) : Sample :=
  {| path := path sample; content := content sample; size_metric := 0 |}.

Fixpoint starts_with (needle s : list N) : bool :=
  match needle, s with
  | [], _ => true
  | x :: needle', y :: s' => (x =? y) && starts_with needle' s'
  | _ :: _, [] => false
  end.

(** The number of positions of [s] at which [needle] occurs. *)
Fixpoint occurrences (needle s : list N) : nat :=
  ((if starts_with needle s then 1 else 0)
   + match s with
     | [] => 0
     | _ :: s' => occurrences needle s'
     end)%nat.

(** Two files with the same content. *)
Definition twin_samples : list Sample :=
  [{| path := lit "a.py"; content := lit "import os"; size_metric := 1 |};
   {| path := lit "b.py"; content := lit "import os"; size_metric := 1 |}].

(** ** The points of one call of [extraction]

    The state once the request has left, and the states that follow when a
    reply with a text comes back: the draft is stored, the user turn is
    appended, the assistant turn is appended, three lines are printed. *)

Definition user_turn (pl : Pipeline) (samples : list Sample) : Turn :=
  {| role := user; turn_content := prompt pl samples |}.

Definition assistant_turn (text : list N) : Turn :=
  {| role := assistant; turn_content := text |}.

Definition request_sent (pl : Pipeline) (samples : list Sample) (s : State)
  : State :=
  add_request (request_of (prompt pl samples)) (add_line Analyzing s).

Definition draft_stored (pl : Pipeline) (samples : list Sample)
    (text : list N) (s : State) : State :=
  set_draft (Some text) (request_sent pl samples s).

Definition user_appended (pl : Pipeline) (samples : list Sample)
    (text : list N) (s : State) : State :=
  set_history (conversation_history s ++ [user_turn pl samples])
    (draft_stored pl samples text s).

Definition assistant_appended (pl : Pipeline) (samples : list Sample)
    (text : list N) (s : State) : State :=
  set_history
    ((conversation_history s ++ [user_turn pl samples]) ++ [assistant_turn text])
    (user_appended pl samples text s).

Definition extraction_done (pl : Pipeline) (samples : list Sample)
    (message : Message) (text : list N) (s : State) : State :=
  add_lines [DraftGenerated; InputTokens (input_tokens message);
             OutputTokens (output_tokens message)]
    (assistant_appended pl samples text s).

Definition extraction_points (pl : Pipeline) (samples : list Sample)
    (message : Message) (text : list N) (s : State) : list State :=
  [add_line Analyzing s;
   request_sent pl samples s;
   draft_stored pl samples text s;
   user_appended pl samples text s;
   assistant_appended pl samples text s;
   add_line DraftGenerated (assistant_appended pl samples text s);
   add_lines [DraftGenerated; InputTokens (input_tokens message)]
     (assistant_appended pl samples text s);
   extraction_done pl samples message text s].

(** The reply of the endpoint as [extraction] uses it: a message whose first
    block is a text, or an exception (from the call, or from reading
    [content[0].text]). *)
Definition reply_text (env : Env) (self : Self) (pl : Pipeline)
    (samples : list Sample) : result (Message * list N) :=
  match messages_create env (client self) (request_of (prompt pl samples)) with
  | Raise e => Raise e
  | Ok message =>
      match first_text message with
      | Raise e => Raise e
      | Ok text => Ok (message, text)
      end
  end.

(** ** The run of [main], stage by stage *)

(** The extractor object that [main] builds. *)
Definition self_of (env : Env) (pl : Pipeline) : Self :=
  {| repo_path := Path_of_name (SAMPLES_DIR pl);
     output_file := OUTPUT_FILE pl;
     client := getenv_api_key env |}.

(** The paths its scan returns and the samples its loader returns. *)
Definition discovered (env : Env) (pl : Pipeline) : list Path :=
  scan_extensions env (self_of env pl) MAX_FILES (default_extensions pl).

Definition samples_of (env : Env) (pl : Pipeline) : list Sample :=
  loaded env pl (self_of env pl) (discovered env pl).

(** The same world with another value of the environment variable. *)
Definition with_key (k : option (list N)) (env : Env) : Env :=
  {| path_exists := path_exists env;
     path_is_dir := path_is_dir env;
     makedirs := makedirs env;
     rglob_rel := rglob_rel env;
     read_text := read_text env;
     getenv_api_key := k;
     new_client := new_client env;
     messages_create := messages_create env;
     open_w := open_w env |}.

(** The states [main] passes through between its stages. *)
Definition started (pl : Pipeline) (s : State) : State :=
  add_lines [Banner; Title pl; Banner] s.

Definition scanned (env : Env) (pl : Pipeline) (s : State) : State :=
  add_line (Found (length (discovered env pl)))
    (set_draft None (set_history [] (started pl s))).

Definition loaded_state (env : Env) (pl : Pipeline) (s : State) : State :=
  final (read_files env pl (self_of env pl) (discovered env pl) (scanned env pl s)).

(** The state [save_draft] leaves when it has the text [c] to save. *)
Definition saved (env : Env) (self : Self) (c : list N) (s : State) : State :=
  match open_w env (output_file self) with
  | Raise e => add_line (ErrorSaving e) (add_opened (output_file self) s)
  | Ok _ =>
      if utf8_encodable c then
        add_line (SavedDraft (output_file self))
          (set_files
             (<[output_file self := c]> (<[output_file self := []]> (files s)))
             (add_opened (output_file self) s))
      else
        add_line (ErrorSaving (UnicodeError c))
          (set_files (<[output_file self := []]> (files s))
             (add_opened (output_file self) s))
  end.

(** How [main] ends and the state it leaves, by cases on what the world
    answers. *)
Definition main_outcome (env : Env) (pl : Pipeline) (s : State)
  : result unit * State :=
  match makedirs env SKILL_SET_DIR with
  | Raise e => (Raise e, started pl s)
  | Ok _ =>
      if negb (path_exists env (Path_of_name (SAMPLES_DIR pl))) then
        (Ok tt, add_line (ErrNotExist (SAMPLES_DIR pl)) (started pl s))
      else if negb (path_is_dir env (Path_of_name (SAMPLES_DIR pl))) then
        (Ok tt, add_line (ErrNotDir (SAMPLES_DIR pl)) (started pl s))
      else
        match new_client env (getenv_api_key env) with
        | Raise e => (Raise e, started pl s)
        | Ok _ =>
            match discovered env pl with
            | [] => (Ok tt, add_line NoFilesFound (scanned env pl s))
            | _ :: _ =>
                match samples_of env pl with
                | [] => (Ok tt, add_line NoSamplesRead (loaded_state env pl s))
                | _ :: _ =>
                    match reply_text env (self_of env pl) pl (samples_of env pl) with
                    | Raise e =>
                        (Raise e,
                         request_sent pl (samples_of env pl) (loaded_state env pl s))
                    | Ok (message, text) =>
                        (Ok tt,
                         add_line Complete
                           (saved env (self_of env pl) text
                              (extraction_done pl (samples_of env pl) message
                                 text (loaded_state env pl s))))
                    end
                end
            end
        end
  end.

(** The run gets as far as the persister: the directories are in place, the
    client is built, files are found and read, and the endpoint replies with
    a message whose first block is the text [text]. *)
Definition reaches_persister (env : Env) (pl : Pipeline) (message : Message)
    (text : list N) : Prop :=
  makedirs env SKILL_SET_DIR = Ok tt
  /\ path_exists env (Path_of_name (SAMPLES_DIR pl)) = true
  /\ path_is_dir env (Path_of_name (SAMPLES_DIR pl)) = true
  /\ new_client env (getenv_api_key env) = Ok tt
  /\ discovered env pl <> []
  /\ samples_of env pl <> []
  /\ reply_text env (self_of env pl) pl (samples_of env pl) = Ok (message, text).

(** The lines with which [main] announces that it stops early. *)
Definition early_exit_line (pl : Pipeline) (l : Line) : bool :=
  match l with
  | ErrNotExist _ | ErrNotDir _ | NoFilesFound | NoSamplesRead => true
  | _ => false
  end.

(** Worlds for the examples: no samples directory at all; one source file,
    an endpoint that replies, and an output path that cannot be opened. *)
Definition empty_env : Env := disk_env [] None (reply_with (lit "# Guide")) true.


Definition guide_message : Message :=
  {| blocks := [TextBlock (lit "# Guide")]; input_tokens := 10; output_tokens := 1 |}.

(** The same world and run with two different keys. *)
Definition keyed_env : Env :=
  disk_env one_py None (reply_with (lit "# Guide")) true.

Definition key_one : option (list N) := Some (lit "sk-one").

Definition key_two : option (list N) := Some (lit "sk-two").

(** ** Session state: the conversation history along a run *)

Definition other (r : Role) : Role :=
  match r with
  | user => assistant
  | assistant => user
  end.

(** The roles of [h] are [expected], then the other role, and so on. *)
Fixpoint alternates (expected : Role) (h : list Turn) : bool :=
  match h with
  | [] => true
  | t :: rest => bool_decide (role t = expected) && alternates (other expected) rest
  end.

(** A history made of whole exchanges: it alternates from a user turn and
    does not end on one. *)
Definition paired (h : list Turn) : Prop :=
  alternates user h = true /\ Nat.even (length h) = true.

(** No two neighbours in [h] have the same role. *)
Definition no_repeat (h : list Turn) : Prop :=
  forall i t1 t2, h !! i = Some t1 -> h !! S i = Some t2 -> role t1 <> role t2.

(** Along the points of a run, starting from the history [h]: at every
    point the history alternates from a user turn and has the history of
    the point before as a prefix (nothing is removed, changed or
    reordered). *)
Fixpoint append_only (h : list Turn) (points : list State) : Prop :=
  match points with
  | [] => True
  | s :: rest =>
      h `prefix_of` conversation_history s
      /\ alternates user (conversation_history s) = true
      /\ append_only (conversation_history s) rest
  end.

(** A method run from [s] keeps the history append-only at every point,
    ends in the last point and leaves whole exchanges. *)
Definition well_run {A} (m : M A) (s : State) : Prop :=
  final (m s) = List.last (trace (m s)) s
  /\ append_only (conversation_history s) (trace (m s))
  /\ paired (conversation_history (final (m s))).

(** The calls a client of the class can make on an extractor object. *)
Inductive Call :=
| CallScan (max_files : Z) (extensions : option (list (list N)))
| CallRead (filepaths : list Path)
| CallExtraction (samples : list Sample)
| CallSave (content : option (list N)).

Definition call (env : Env) (pl : Pipeline) (self : Self) (c : Call) : M unit :=
  match c with
  | CallScan max_files extensions =>
      scan_repository env pl self max_files extensions;; mret tt
  | CallRead filepaths => read_files env pl self filepaths;; mret tt
  | CallExtraction samples => extraction env pl self samples;; mret tt
  | CallSave content => save_draft env self content
  end.

(** Any sequence of calls; the caller goes on after a call that raised. *)
Fixpoint calls (env : Env) (pl : Pipeline) (self : Self) (cs : list Call)
  : M unit :=
  match cs with
  | [] => mret tt
  | c :: rest =>
      try_except (call env pl self c) (fun _ => mret tt);;
      calls env pl self rest
  end.

(** The life of an extractor object: built, then used. *)
Definition session (env : Env) (pl : Pipeline) (repository_path : Path)
    (output_file_path : list N) (cs : list Call) : M unit :=
  self ← init env repository_path output_file_path;
  calls env pl self cs.

(** Two extractions in one session, the first failing. *)
Definition flaky_session : list Call :=
  [CallExtraction twin_samples; CallSave None; CallExtraction twin_samples].

(** ** Further notions used in the properties of the whole code *)

(** All the matches of the extensions, extension after extension. *)
Definition all_matches (env : Env) (self : Self) (extensions : list (list N))
  : list Path :=
  concat (List.map (fun ext => rglob env (repo_path self) (lit "*" ++ ext))
            extensions).

(** The extensions [scan_repository] works with. *)
Definition effective_extensions (pl : Pipeline)
    (extensions : option (list (list N))) : list (list N) :=
  match extensions with
  | None => default_extensions pl
  | Some extensions => extensions
  end.

(** The most files a run of [main] hands to the loader. *)
Definition file_cap (pl : Pipeline) : nat :=
  match pl with
  | Coding => 20
  | Writing => 21
  end.

(** Three text files, two of them markdown. *)
Definition three_md_disk : list (Path * result (list N)) :=
  [(file_at "writing_samples" "a.md", Ok (lit "one two"));
   (file_at "writing_samples" "b.txt", Ok (lit "three"));
   (file_at "writing_samples" "c.md", Raise (UnicodeError (lit "invalid start byte")))].

Definition three_md_env : Env := disk_env three_md_disk None endpoint_down true.

(** What is left of [rest] after the line boundary [c]: a line feed that
    follows a carriage return belongs to the boundary. *)
Definition after_boundary (c : N) (rest : list N) : list N :=
  if c =? 13 then
    match rest with
    | 10 :: r => r
    | _ => rest
    end
  else rest.

(** The run gets as far as the endpoint, and the extraction raises [e]
    there (the call raises, or the reply has no first text block). *)
Definition fails_at_endpoint (env : Env) (pl : Pipeline) (e : exn) : Prop :=
  makedirs env SKILL_SET_DIR = Ok tt
  /\ path_exists env (Path_of_name (SAMPLES_DIR pl)) = true
  /\ path_is_dir env (Path_of_name (SAMPLES_DIR pl)) = true
  /\ new_client env (getenv_api_key env) = Ok tt
  /\ discovered env pl <> []
  /\ samples_of env pl <> []
  /\ reply_text env (self_of env pl) pl (samples_of env pl) = Raise e.

(** The current draft is the content of the last turn of the history, which
    is an assistant turn following a user turn; there is no draft exactly
    when the history is empty. *)
Definition draft_is_last_turn (s : State) : Prop :=
  match current_draft s with
  | None => conversation_history s = []
  | Some d =>
      exists h u,
        conversation_history s = h ++ [u; assistant_turn d] /\ role u = user
  end.

(** A world with one source file whose endpoint is down, and a text that
    UTF-8 cannot encode. *)
Definition down_env : Env := disk_env one_py None endpoint_down true.

Definition surrogate_text : list N := lit "ab" ++ [55296].

(** A world in which the output directory cannot be created. *)
Definition locked_env : Env :=
  {| path_exists := path_exists keyed_env;
     path_is_dir := path_is_dir keyed_env;
     makedirs := fun _ => Raise (OSError (lit "Permission denied"));
     rglob_rel := rglob_rel keyed_env;
     read_text := read_text keyed_env;
     getenv_api_key := getenv_api_key keyed_env;
     new_client := new_client keyed_env;
     messages_create := messages_create keyed_env;
     open_w := open_w keyed_env |}.


(** * The methods in a world where printing, globbing and writing can fail

    The definitions above describe the methods in a calm world: the
    standard output encodes every text handed to [print], every pattern
    handed to [rglob] is accepted, and a file that opened takes the whole
    text.  Module [IO] lifts these three restrictions and gives the methods
    again, statement by statement, over a [World]:
    - [print] raises [UnicodeEncodeError] when the stream cannot encode the
      text (ASCII is always encodable; the numbers and the fixed words of a
      line are ASCII; the message of a Unicode error is ASCII, the offending
      character being escaped in it);
    - [rglob] raises [ValueError] for a pattern in which [**] is part of a
      path component without being the whole of it;
    - writing and closing a file that opened can raise, leaving some text
      in the file.
    Lemmas [IO_print_calm], [IO_read_files_calm] and [IO_save_draft_calm]
    relate the two descriptions. *)

Module IO.

Record World := {
  base : Env;
  (** the characters outside ASCII that [sys.stdout] can encode *)
  stdout_encodes : N -> bool;
  (** an error of the file system met while [rglob] walks the tree, other
      than the permission errors that [rglob] passes over *)
  walk_fails : Path -> list N -> option exn;
  (** [f.write(content)] and the closing of [f], for a file that opened:
      [None] when the text is written, or the exception raised and the text
      left in the file *)
  write_fails : list N -> list N -> option (exn * list N)
}.

(** The world of the first part. *)
Definition calm (env : Env) : World :=
  {| base := env; stdout_encodes := fun _ => true;
     walk_fails := fun _ _ => None; write_fails := fun _ _ => None |}.

(** [str(e)], as far as it is not ASCII by construction. *)
Definition exn_text (e : exn) : list N :=
  match e with
  | OSError msg | ValueError msg | APIError msg => msg
  | UnicodeError _ | IndexError | AttributeError => []
  end.

(** The text interpolated into a printed line, apart from numbers. *)
Definition line_text (l : Line) : list N :=
  match l with
  | ErrNotExist dir | ErrNotDir dir => dir
  | ReadMsg _ shown => shown
  | ErrorReading file_name e => file_name ++ exn_text e
  | SavedDraft to => to
  | ErrorSaving e => exn_text e
  | _ => []
  end.

Definition encodable (w : World) (text : list N) : bool :=
  forallb (fun c => (c <? 128) || stdout_encodes w c) text.

(** [print(...)]: nothing is written when the text cannot be encoded. *)
Definition print (w : World) (l : Line) : M unit :=
  if encodable w (line_text l) then modify (add_line l)
  else raise (UnicodeError (line_text l)).

(** The components of a pattern, cut at [/]. *)
Fixpoint components (pattern : list N) : list (list N) :=
  match pattern with
  | [] => [[]]
  | c :: rest =>
      if c =? 47 then [] :: components rest
      else match components rest with
           | [] => [[c]]
           | comp :: comps => (c :: comp) :: comps
           end
  end.

(** [**] may only be an entire path component. *)
Definition valid_pattern (pattern : list N) : bool :=
  forallb (fun comp => Nat.eqb (occurrences [42; 42] comp) 0
                       || bool_decide (comp = [42; 42]))
    (components pattern).

(** [root.rglob(pattern)] *)
Definition rglob (w : World) (root : Path) (pattern : list N)
  : result (list Path) :=
  if valid_pattern pattern then
    match walk_fails w root pattern with
    | None => Ok (rglob (base w) root pattern)
    | Some e => Raise e
    end
  else Raise (ValueError
                (lit "Invalid pattern: '**' can only be an entire path component")).

(** The outer loop of [scan_repository]: an exception raised by [rglob]
    leaves the method, and the paths collected so far are lost. *)
Fixpoint scan_extensions (w : World) (self : Self) (max_files : Z)
    (extensions : list (list N)) (code_files : list Path)
  : result (list Path) :=
  match extensions with
  | [] => Ok code_files
  | ext :: rest =>
      match rglob w (repo_path self) (lit "*" ++ ext) with
      | Raise e => Raise e
      | Ok matches =>
          scan_extensions w self max_files rest
            (scan_matches max_files matches code_files)
      end
  end.

Definition scan_repository (w : World) (pl : Pipeline) (self : Self)
    (max_files : Z) (extensions : option (list (list N))) : M (list Path) :=
  let extensions :=
    match extensions with
    | None => default_extensions pl
    | Some extensions => extensions
    end in
  code_files ← lift (scan_extensions w self max_files extensions []);
  print w (Found (length code_files));;
  mret code_files.

(** The loop of [read_files].  The progress line is printed inside the
    [try], after the record was appended: when that [print] raises, the
    handler prints the error line and the record stays.  The [print] of the
    handler is outside any [try]: when it raises, the method is left. *)
Fixpoint read_loop (w : World) (pl : Pipeline) (self : Self)
    (filepaths : list Path) (samples : list Sample) (total_lines : nat)
  : M (list Sample * nat) :=
  match filepaths with
  | [] => mret (samples, total_lines)
  | filepath :: rest =>
      match read_text (base w) filepath with
      | Raise e =>
          print w (ErrorReading (name filepath) e);;
          read_loop w pl self rest samples total_lines
      | Ok content =>
          let lines := count_size pl content in
          let total_lines := (total_lines + lines)%nat in
          match relative_to filepath (repo_path self) with
          | Raise e =>
              print w (ErrorReading (name filepath) e);;
              read_loop w pl self rest samples total_lines
          | Ok rel =>
              let samples :=
                samples ++ [{| path := str_of_parts rel; content := content;
                               size_metric := lines |}] in
              try_except
                (print w (ReadMsg lines (shown_path pl filepath)))
                (fun e => print w (ErrorReading (name filepath) e));;
              read_loop w pl self rest samples total_lines
          end
      end
  end.

Definition read_files (w : World) (pl : Pipeline) (self : Self)
    (filepaths : list Path) : M (list Sample) :=
  '(samples, total_lines) ← read_loop w pl self filepaths [] 0%nat;
  print w (Total total_lines (length samples));;
  mret samples.

(** [with open(path, 'w', encoding='utf-8') as f: f.write(content)] *)
Definition write_file (w : World) (path : list N) (content : list N) : M unit :=
  modify (add_opened path);;
  lift (open_w (base w) path);;
  modify (fun s => set_files (<[path := []]> (files s)) s);;
  if utf8_encodable content then
    match write_fails w path content with
    | None => modify (fun s => set_files (<[path := content]> (files s)) s)
    | Some (e, written) =>
        modify (fun s => set_files (<[path := written]> (files s)) s);;
        raise e
    end
  else raise (UnicodeError content).

Definition save_draft (w : World) (self : Self) (content : option (list N))
  : M unit :=
  s ← get;
  let content :=
    match content with
    | None => current_draft s
    | Some _ => content
    end in
  match content with
  | None => print w NoContentToSave
  | Some content =>
      try_except
        (write_file w (output_file self) content;;
         print w (SavedDraft (output_file self)))
        (fun e => print w (ErrorSaving e))
  end.

(** [main]; [__init__] and [extraction] are as in the first part: what they
    print has no text besides fixed words and numbers. *)
Definition main (w : World) (pl : Pipeline) : M unit :=
  print w Banner;;
  print w (Title pl);;
  print w Banner;;
  lift (makedirs (base w) SKILL_SET_DIR);;
  if negb (path_exists (base w) (Path_of_name (SAMPLES_DIR pl))) then
    print w (ErrNotExist (SAMPLES_DIR pl))
  else if negb (path_is_dir (base w) (Path_of_name (SAMPLES_DIR pl))) then
    print w (ErrNotDir (SAMPLES_DIR pl))
  else
    extractor_utils ← init (base w) (Path_of_name (SAMPLES_DIR pl))
                        (OUTPUT_FILE pl);
    code_files ← scan_repository w pl extractor_utils MAX_FILES
                   (Some (default_extensions pl));
    match code_files with
    | [] => print w NoFilesFound
    | _ :: _ =>
        code_samples ← read_files w pl extractor_utils code_files;
        match code_samples with
        | [] => print w NoSamplesRead
        | _ :: _ =>
            draft ← extraction (base w) pl extractor_utils code_samples;
            save_draft w extractor_utils None;;
            print w Complete
        end
    end.

(** ** What happens to one path in the loader *)

(** The progress line of a path cannot be printed. *)
Definition progress_fails (w : World) (pl : Pipeline) (p : Path) : bool :=
  negb (encodable w (shown_path pl p)).

(** An error line is printed (or attempted) for the path: its step raised
    before the record was appended, or its progress line cannot be
    printed. *)
Definition reported (w : World) (pl : Pipeline) (self : Self) (p : Path)
  : bool :=
  load_fails (base w) self p || progress_fails w pl p.

(** The error line for the path is attempted and cannot be printed: the
    loader is left there. *)
Definition report_fails (w : World) (pl : Pipeline) (self : Self) (p : Path)
  : bool :=
  match load (base w) pl self p with
  | Raise e => negb (encodable w (name p ++ exn_text e))
  | Ok _ => progress_fails w pl p && negb (encodable w (name p))
  end.

(** The line printed for a path whose error line, if any, can be printed. *)
Definition progress_line (w : World) (pl : Pipeline) (self : Self) (p : Path)
  : Line :=
  match load (base w) pl self p with
  | Raise e => ErrorReading (name p) e
  | Ok sample =>
      if progress_fails w pl p then
        ErrorReading (name p) (UnicodeError (shown_path pl p))
      else ReadMsg (size_metric sample) (shown_path pl p)
  end.

(** The extensions give patterns that [rglob] accepts. *)
Definition valid_extensions (extensions : list (list N)) : bool :=
  forallb (fun ext => valid_pattern (lit "*" ++ ext)) extensions.

(** The run gets as far as the persister. *)
Definition reaches_persister (w : World) (pl : Pipeline) (message : Message)
    (text : list N) : Prop :=
  reaches_persister (base w) pl message text
  /\ forallb (fun p => negb (report_fails w pl (self_of (base w) pl) p))
       (discovered (base w) pl) = true.

End IO.

(** Worlds for the examples.  A terminal that encodes ASCII only, with one
    unreadable file whose name is not ASCII; an output path that is not
    ASCII and cannot be opened; a disk that is full; an endpoint whose reply
    has no content. *)
Definition cjk_name : list N := [26085; 26412] ++ lit ".py".

Definition cjk_disk : list (Path * result (list N)) :=
  [({| anchor := []; parts := [lit "code_samples"; cjk_name] |},
    Raise (UnicodeError (lit "invalid start byte")))].

Definition ascii_world (env : Env) : IO.World :=
  {| IO.base := env; IO.stdout_encodes := fun _ => false;
     IO.walk_fails := fun _ _ => None; IO.write_fails := fun _ _ => None |}.

Definition cjk_world : IO.World :=
  ascii_world (disk_env cjk_disk None endpoint_down true).

Definition cjk_paths : list Path :=
  [{| anchor := []; parts := [lit "code_samples"; cjk_name] |}].

Definition cjk_output : list N := [26085; 26412] ++ lit ".md".

Definition cjk_self : Self :=
  {| repo_path := Path_of_name (SAMPLES_DIR Coding); output_file := cjk_output;
     client := None |}.

Definition denied_env : Env :=
  {| path_exists := path_exists keyed_env;
     path_is_dir := path_is_dir keyed_env;
     makedirs := makedirs keyed_env;
     rglob_rel := rglob_rel keyed_env;
     read_text := read_text keyed_env;
     getenv_api_key := getenv_api_key keyed_env;
     new_client := new_client keyed_env;
     messages_create := messages_create keyed_env;
     open_w := fun p =>
       Raise (OSError (lit "[Errno 13] Permission denied: '" ++ p ++ lit "'")) |}.

Definition full_disk_world : IO.World :=
  {| IO.base := keyed_env; IO.stdout_encodes := fun _ => true;
     IO.walk_fails := fun _ _ => None;
     IO.write_fails := fun _ _ =>
       Some (OSError (lit "[Errno 28] No space left on device"), []) |}.

Definition empty_reply (r : Request) : result Message :=
  Ok {| blocks := []; input_tokens := 10; output_tokens := 0 |}.

Definition empty_reply_env : Env := disk_env one_py None empty_reply true.

(** * Properties *)

(** ** The monad *)

Lemma bind_res_ok {A B} (m : M A) (k : A -> M B) s a :
  res (m s) = Ok a ->
  (m ≫= k) s =
    {| res := res (k a (final (m s))); final := final (k a (final (m s)));
       trace := trace (m s) ++ trace (k a (final (m s))) |}.
Proof. intros H. unfold mbind, M_bind. cbv zeta. now rewrite H. Qed.

Lemma bind_res_raise {A B} (m : M A) (k : A -> M B) s e :
  res (m s) = Raise e ->
  (m ≫= k) s = {| res := Raise e; final := final (m s); trace := trace (m s) |}.
Proof. intros H. unfold mbind, M_bind. cbv zeta. now rewrite H. Qed.

Lemma bind_assoc {A B C} (m : M A) (f : A -> M B) (g : B -> M C) s :
  ((m ≫= f) ≫= g) s = (m ≫= (fun a => f a ≫= g)) s.
Proof.
  unfold mbind, M_bind. cbv zeta.
  destruct (res (m s)) as [a|e]; cbn [res final trace]; [|reflexivity].
  destruct (res (f a (final (m s)))); cbn [res final trace];
    now rewrite ?app_assoc.
Qed.

Lemma modify_bind {A} (f : State -> State) (k : unit -> M A) s :
  (modify f ≫= k) s =
    {| res := res (k tt (f s)); final := final (k tt (f s));
       trace := f s :: trace (k tt (f s)) |}.
Proof. reflexivity. Qed.

Lemma get_bind {A} (k : State -> M A) s : (get ≫= k) s = k s s.
Proof. reflexivity. Qed.

Lemma ret_bind {A B} (a : A) (k : A -> M B) s : (mret a ≫= k) s = k a s.
Proof. reflexivity. Qed.

Lemma lift_ok_bind {A B} (a : A) (k : A -> M B) s : (lift (Ok a) ≫= k) s = k a s.
Proof. reflexivity. Qed.

Lemma lift_raise_bind {A B} (e : exn) (k : A -> M B) s :
  (lift (Raise e) ≫= k) s = {| res := Raise e; final := s; trace := [] |}.
Proof. reflexivity. Qed.

Lemma try_except_ok {A} (m : M A) (handler : exn -> M A) s a :
  res (m s) = Ok a -> try_except m handler s = m s.
Proof. intros H. unfold try_except. cbv zeta. now rewrite H. Qed.

Lemma try_except_raise {A} (m : M A) (handler : exn -> M A) s e :
  res (m s) = Raise e ->
  try_except m handler s =
    {| res := res (handler e (final (m s)));
       final := final (handler e (final (m s)));
       trace := trace (m s) ++ trace (handler e (final (m s))) |}.
Proof. intros H. unfold try_except. cbv zeta. now rewrite H. Qed.

Ltac projections := cbn [res final trace].

(** ** Corpus scanner *)

Section Scanner.
Context (max_files : Z).

Lemma scan_matches_grows matches code_files :
  code_files `prefix_of` scan_matches max_files matches code_files.
Proof.
  revert code_files. induction matches as [|f rest IH]; intros acc; simpl.
  - reflexivity.
  - destruct (Z.of_nat (length (acc ++ [f])) >=? max_files)%Z.
    + now apply prefix_app_r.
    + etransitivity; [|apply IH]. now apply prefix_app_r.
Qed.

(** One pass over the matches of an extension ends at [max_files] entries,
    or one above what it started with when that is larger. *)
Lemma scan_matches_bound matches code_files :
  (Z.of_nat (length (scan_matches max_files matches code_files))
   <= Z.max max_files (Z.of_nat (length code_files) + 1))%Z.
Proof.
  revert code_files.
  induction matches as [|f rest IH]; intros acc; cbn [scan_matches].
  - lia.
  - destruct (Z.geb_spec (Z.of_nat (length (acc ++ [f]))) max_files) as [Hge|Hlt].
    + rewrite length_app. cbn [length]. lia.
    + specialize (IH (acc ++ [f])). rewrite length_app in *.
      cbn [length] in *. lia.
Qed.

Lemma scan_fold_bound env self extensions code_files :
  (Z.of_nat (length
     (fold_left
        (fun code_files ext =>
           scan_matches max_files
             (rglob env (repo_path self) (lit "*" ++ ext)) code_files)
        extensions code_files))
   <= Z.max max_files (Z.of_nat (length code_files)) + Z.of_nat (length extensions))%Z.
Proof.
  revert code_files.
  induction extensions as [|ext rest IH]; intros acc; cbn [fold_left length].
  - lia.
  - etransitivity; [apply IH|].
    pose proof (scan_matches_bound (rglob env (repo_path self) (lit "*" ++ ext)) acc).
    lia.
Qed.

(** What the two loops do guarantee: the cap can be passed by one entry
    for every extension after the first, and a cap below one acts as one. *)
Lemma scan_extensions_bound env self ext extensions :
  (Z.of_nat (length (scan_extensions env self max_files (ext :: extensions)))
   <= Z.max max_files 1 + Z.of_nat (length extensions))%Z.
Proof.
  unfold scan_extensions. cbn [fold_left].
  etransitivity; [apply scan_fold_bound|].
  pose proof (scan_matches_bound (rglob env (repo_path self) (lit "*" ++ ext)) []).
  cbn [length] in *. lia.
Qed.

(** With one extension and a cap of at least one the cap is respected. *)
Lemma scan_one_extension_capped env self ext :
  (1 <= max_files)%Z ->
  (Z.of_nat (length (scan_extensions env self max_files [ext])) <= max_files)%Z.
Proof.
  intros H. pose proof (scan_extensions_bound env self ext []).
  cbn [length] in *. lia.
Qed.
End Scanner.

(** C1 (the code does not do what the claim and its own docstring, "Maximum
    number of files to scan", say).  With [max_files = 0] and one matching
    file under the root, [scan_repository] returns that file, not the empty
    list: the length is tested after the append.  With [max_files = 2] and
    the extensions [.md] and [.txt], it returns three paths: [break] leaves
    the inner loop only, so every later extension adds one more entry. *)
Theorem scan_repository_exceeds_max_files :
  res (scan_repository (disk_env one_py None endpoint_down true) Coding
         coding_self 0 (Some [lit ".py"]) (boot ∅))
  = Ok [file_at "code_samples" "a.py"]
  /\ res (scan_repository (disk_env md_and_txt None endpoint_down true) Writing
            writing_self 2 (Some [lit ".md"; lit ".txt"]) (boot ∅))
     = Ok [file_at "writing_samples" "a.md"; file_at "writing_samples" "b.md";
           file_at "writing_samples" "c.txt"].
Proof. split; vm_compute; reflexivity. Qed.

(** ** Sample loader *)

Lemma print_bind {A} (l : Line) (k : M A) s :
  (print l;; k) s =
    {| res := res (k (add_line l s)); final := final (k (add_line l s));
       trace := add_line l s :: trace (k (add_line l s)) |}.
Proof. reflexivity. Qed.

Lemma add_lines_app ls ls' s :
  add_lines (ls ++ ls') s = add_lines ls' (add_lines ls s).
Proof. apply fold_left_app. Qed.


Section Loader.
Context (env : Env) (pl : Pipeline) (self : Self).

Lemma loaded_cons p rest :
  loaded env pl self (p :: rest)
  = match load env pl self p with
    | Ok sample => sample :: loaded env pl self rest
    | Raise _ => loaded env pl self rest
    end.
Proof.
  unfold loaded. cbn [omap list_omap].
  now destruct (load env pl self p).
Qed.

Lemma read_loop_spec filepaths : forall samples total_lines s,
  res (read_loop env pl self filepaths samples total_lines s)
  = Ok (samples ++ loaded env pl self filepaths,
        (total_lines + lines_counted env pl filepaths)%nat)
  /\ final (read_loop env pl self filepaths samples total_lines s)
     = add_lines (List.map (progress_line env pl self) filepaths) s.
Proof.
  induction filepaths as [|p rest IH]; intros samples total_lines s.
  - cbn. now rewrite app_nil_r, Nat.add_0_r.
  - rewrite loaded_cons.
    cbn [read_loop List.map lines_counted fold_right].
    fold (lines_counted env pl rest).
    unfold progress_line at 1. unfold load.
    destruct (read_text env p) as [text|e].
    + destruct (relative_to p (repo_path self)) as [rel|e].
      * rewrite print_bind. projections. cbn [size_metric].
        edestruct IH as (Hres & Hfin). rewrite Hres, Hfin.
        split; [|reflexivity]. now rewrite <- app_assoc, Nat.add_assoc.
      * rewrite print_bind. projections.
        edestruct IH as (Hres & Hfin). rewrite Hres, Hfin.
        split; [|reflexivity]. now rewrite Nat.add_assoc.
    + rewrite print_bind. projections.
      edestruct IH as (Hres & Hfin). rewrite Hres, Hfin. split; reflexivity.
Qed.

Lemma read_files_result filepaths s :
  res (read_files env pl self filepaths s) = Ok (loaded env pl self filepaths).
Proof.
  unfold read_files.
  destruct (read_loop_spec filepaths [] 0%nat s) as (Hres & _).
  erewrite bind_res_ok by exact Hres. reflexivity.
Qed.

Lemma read_files_final filepaths s :
  final (read_files env pl self filepaths s)
  = add_lines (List.map (progress_line env pl self) filepaths
               ++ [Total (lines_counted env pl filepaths)
                     (length (loaded env pl self filepaths))]) s.
Proof.
  unfold read_files.
  destruct (read_loop_spec filepaths [] 0%nat s) as (Hres & Hfin).
  erewrite bind_res_ok by exact Hres. projections.
  rewrite add_lines_app, Hfin. reflexivity.
Qed.

Lemma loaded_length filepaths :
  length (loaded env pl self filepaths)
  = (length filepaths - length (List.filter (load_fails env self) filepaths))%nat.
Proof.
  assert (H : (length (loaded env pl self filepaths)
               + length (List.filter (load_fails env self) filepaths)
               = length filepaths)%nat); [|lia].
  induction filepaths as [|p rest IH]; [reflexivity|].
  rewrite loaded_cons. cbn [List.filter].
  unfold load_fails at 1. unfold load.
  destruct (read_text env p); cbn;
    [destruct (relative_to p (repo_path self)); cbn|]; lia.
Qed.


End Loader.




(** The paths a scan returns are under the root, so for them only a read
    failure drops a sample. *)
Lemma strip_prefix_app pre rel : strip_prefix pre (pre ++ rel) = Some rel.
Proof.
  induction pre as [|x pre IH]; cbn; [reflexivity|].
  now rewrite decide_True.
Qed.

Lemma relative_to_joinpath root rel : relative_to (joinpath root rel) root = Ok rel.
Proof.
  unfold relative_to, joinpath. cbn.
  rewrite decide_True by reflexivity. now rewrite strip_prefix_app.
Qed.

Lemma scan_matches_Forall (P : Path -> Prop) max_files matches code_files :
  Forall P code_files -> Forall P matches ->
  Forall P (scan_matches max_files matches code_files).
Proof.
  revert code_files.
  induction matches as [|f rest IH]; intros acc Hacc Hm; cbn [scan_matches].
  - assumption.
  - inversion Hm; subst.
    assert (Forall P (acc ++ [f])) by (apply Forall_app; auto).
    destruct (Z.of_nat (length (acc ++ [f])) >=? max_files)%Z; auto.
Qed.

Lemma scan_extensions_under_root env self max_files extensions :
  Forall (fun p => exists rel, p = joinpath (repo_path self) rel)
    (scan_extensions env self max_files extensions).
Proof.
  unfold scan_extensions. generalize (@nil Path) (Forall_nil_2 (fun p => exists rel, p = joinpath (repo_path self) rel)).
  induction extensions as [|ext rest IH]; intros acc Hacc; cbn [fold_left].
  - assumption.
  - apply IH. apply scan_matches_Forall; [assumption|].
    unfold rglob. apply Forall_forall. intros p Hp.
    apply list_elem_of_In, in_map_iff in Hp. destruct Hp as (rel & <- & _). eauto.
Qed.


(** ** The text functions on small inputs *)

Example splitlines_example :
  splitlines (lit "ab" ++ [13; 10] ++ lit "c" ++ [10; 10] ++ lit "d" ++ [12])
  = [lit "ab"; lit "c"; []; lit "d"].
Proof. reflexivity. Qed.

Example splitlines_empty : splitlines [] = [].
Proof. reflexivity. Qed.

Example split_example :
  split (lit "  ab  c" ++ [10; 160] ++ lit "d ") = [lit "ab"; lit "c"; lit "d"].
Proof. reflexivity. Qed.

Example join_example : join (lit ", ") [lit "a"; lit "b"; lit "c"] = lit "a, b, c".
Proof. reflexivity. Qed.

Example relative_to_example :
  relative_to (file_at "code_samples" "a.py") (Path_of_name (lit "code_samples"))
  = Ok [lit "a.py"].
Proof. reflexivity. Qed.

(** ** Size metric *)

Lemma splitlines_nonbreak c rest :
  is_linebreak c = false ->
  length (splitlines (c :: rest)) = Nat.max 1 (length (splitlines rest)).
Proof.
  intros H. cbn [splitlines]. rewrite H.
  destruct (splitlines rest); cbn [length]; lia.
Qed.

Lemma boundary_segments_from_spec n : forall s, (length s <= n)%nat ->
  boundary_segments_from false s = length (splitlines s)
  /\ boundary_segments_from true s = Nat.max 1 (length (splitlines s)).
Proof.
  induction n as [|n IH]; intros s Hn.
  - destruct s; [cbn; lia | cbn in Hn; lia].
  - destruct s as [|c rest]; [cbn; lia|].
    cbn [length] in Hn.
    destruct (is_linebreak c) eqn:Hc.
    + cbn [boundary_segments_from splitlines]. rewrite Hc.
      assert (Hgoal : forall k, k = length (splitlines
                 (if c =? 13 then match rest with
                                  | 10 :: r => r
                                  | _ => rest
                                  end else rest)) ->
               S k = length ([] :: (if c =? 13 then
                                 match rest with
                                 | 10 :: r => splitlines r
                                 | _ => splitlines rest
                                 end
                               else splitlines rest))).
      { intros k ->. cbn [length]. f_equal.
        destruct (c =? 13); [|reflexivity].
        destruct rest as [|[|p] r]; try reflexivity.
        repeat (destruct p as [p|p|]; try reflexivity). }
      assert (Hk : (if c =? 13 then
             match rest with
             | 10 :: r => boundary_segments_from false r
             | _ => boundary_segments_from false rest
             end
           else boundary_segments_from false rest)
          = length (splitlines
                 (if c =? 13 then match rest with
                                  | 10 :: r => r
                                  | _ => rest
                                  end else rest))).
      { destruct (c =? 13); [|apply IH; lia].
        destruct rest as [|[|p] r]; try (apply IH; cbn [length] in *; lia).
        repeat (destruct p as [p|p|]; try (apply IH; cbn [length] in *; lia)). }
      rewrite <- (Hgoal _ Hk). lia.
    + rewrite (splitlines_nonbreak _ _ Hc).
      cbn [boundary_segments_from]. rewrite Hc.
      destruct (IH rest ltac:(lia)) as [_ ->]. lia.
Qed.

(** [len(content.splitlines())] is the number of segments delimited by line
    boundaries. *)
Lemma splitlines_length s : length (splitlines s) = boundary_segments s.
Proof.
  symmetry. apply (boundary_segments_from_spec (length s) s). lia.
Qed.

Lemma newline_segments_from_boundary pending s :
  only_newline_breaks s = true ->
  boundary_segments_from pending s = newline_segments_from pending s.
Proof.
  revert pending. induction s as [|c rest IH]; intros pending H; [reflexivity|].
  cbn [only_newline_breaks forallb] in H. apply andb_true_iff in H as [Hc Hrest].
  cbn [boundary_segments_from newline_segments_from].
  destruct (is_linebreak c) eqn:Hb; cbn in Hc.
  - rewrite Hc. apply N.eqb_eq in Hc. subst c. cbn. f_equal. now apply IH.
  - destruct (N.eqb_spec c 10) as [->|_]; [discriminate Hb|]. now apply IH.
Qed.

(** Where the newline is the only line boundary that occurs, the count is
    the number of newline-delimited segments. *)
Lemma splitlines_length_newlines s :
  only_newline_breaks s = true -> length (splitlines s) = newline_segments s.
Proof.
  intros H. rewrite splitlines_length. now apply newline_segments_from_boundary.
Qed.

Lemma split_nonempty c rest : isspace c = false -> split (c :: rest) <> [].
Proof.
  intros H. cbn [split]. rewrite H.
  destruct rest as [|c' r]; [discriminate|].
  destruct (isspace c'); [discriminate|]. now destruct (split (c' :: r)).
Qed.

Lemma token_starts_spec s :
  token_starts true s = length (split s)
  /\ token_starts false s
     = (length (split s)
        - match s with
          | [] => 0
          | c :: _ => if isspace c then 0 else 1
          end)%nat.
Proof.
  induction s as [|c rest [IHt IHf]]; [split; reflexivity|].
  cbn [token_starts split].
  destruct (isspace c) eqn:Hc.
  - rewrite IHt. split; lia.
  - rewrite IHf. destruct rest as [|c' r]; [cbn; lia|].
    destruct (isspace c') eqn:Hc'.
    + cbn [length]. lia.
    + pose proof (split_nonempty c' r Hc') as Hne.
      destruct (split (c' :: r)) as [|w ws]; [congruence|]. cbn [length]. lia.
Qed.

(** [len(content.split())] is the number of whitespace-delimited tokens. *)
Lemma split_length s : length (split s) = whitespace_tokens s.
Proof. symmetry. apply token_starts_spec. Qed.

Lemma count_size_counted pl s : count_size pl s = counted pl s.
Proof. destruct pl; [apply splitlines_length | apply split_length]. Qed.

Lemma loaded_size_metric env pl self filepaths :
  Forall (fun sample => size_metric sample = count_size pl (content sample))
    (loaded env pl self filepaths).
Proof.
  induction filepaths as [|p rest IH]; [constructor|].
  rewrite loaded_cons. unfold load.
  destruct (read_text env p); [|assumption].
  destruct (relative_to p (repo_path self)); [|assumption].
  constructor; [reflexivity | assumption].
Qed.

(** C7 (amended).  Every sample that [read_files] returns carries, from its
    creation, the size of its own content: in the coding pipeline the number
    of segments delimited by the line boundaries of [str.splitlines] (the
    newline, and also carriage return, vertical tab, form feed, the
    separators 28 to 30, NEL, U+2028 and U+2029), with no empty segment after
    a final boundary, which is the number of newline-delimited segments when
    the newline is the only boundary that occurs; in the writing pipeline
    the number of whitespace-delimited tokens.  Samples are values: the
    later stages ([extraction], [save_draft]) take them as arguments and
    have no way to change them. *)
Theorem size_metric_counts (env : Env) (pl : Pipeline) (self : Self)
    (filepaths : list Path) (s : State) :
  exists samples,
    res (read_files env pl self filepaths s) = Ok samples
    /\ Forall (fun sample =>
         size_metric sample = counted pl (content sample)
         /\ (pl = Coding -> only_newline_breaks (content sample) = true ->
             size_metric sample = newline_segments (content sample)))
       samples.
Proof.
  exists (loaded env pl self filepaths). split; [apply read_files_result|].
  eapply Forall_impl; [apply loaded_size_metric|].
  intros sample Hs. cbn beta in *. rewrite Hs. split.
  - apply count_size_counted.
  - intros -> Hnl. now apply splitlines_length_newlines.
Qed.

(** C7 as stated fails in the coding pipeline: a file of three lines ended
    by newlines, the second holding a form feed, gets the size 4. *)
Lemma size_metric_counts_form_feed :
  res (read_files paged_env Coding coding_self [file_at "code_samples" "a.py"]
         (boot ∅))
  = Ok [{| path := lit "a.py"; content := paged_source; size_metric := 4 |}]
  /\ newline_segments paged_source = 3%nat
  /\ newline_count paged_source = 3%nat.
Proof. repeat split; vm_compute; reflexivity. Qed.

(** The theorem at a file of one unfinished line, where the newline reading
    applies. *)
Lemma size_metric_counts_witness :
  exists samples,
    res (read_files (disk_env one_py None endpoint_down true) Coding coding_self
           [file_at "code_samples" "a.py"] (boot ∅)) = Ok samples
    /\ Forall (fun sample => size_metric sample = newline_segments (content sample))
         samples.
Proof.
  destruct (size_metric_counts (disk_env one_py None endpoint_down true) Coding
              coding_self [file_at "code_samples" "a.py"] (boot ∅))
    as (samples & Hres & Hall).
  exists samples. split; [exact Hres|].
  vm_compute in Hres. injection Hres as <-.
  inversion Hall as [|sample rest [_ Hnl] _]; subst.
  constructor; [|constructor]. apply Hnl; reflexivity.
Defined.

(** ** Prompt assembler *)

Lemma join_cons sep x y l : join sep (x :: y :: l) = x ++ sep ++ join sep (y :: l).
Proof. reflexivity. Qed.

Lemma join_app sep l1 l2 :
  l1 <> [] -> l2 <> [] ->
  join sep (l1 ++ l2) = join sep l1 ++ sep ++ join sep l2.
Proof.
  intros H1 H2. induction l1 as [|x [|y l1] IH]; [congruence| |].
  - destruct l2; [congruence|]. reflexivity.
  - change ((x :: y :: l1) ++ l2) with (x :: y :: (l1 ++ l2)).
    rewrite !join_cons. change (y :: l1 ++ l2) with ((y :: l1) ++ l2).
    rewrite IH by discriminate. now rewrite <- !app_assoc.
Qed.

Lemma join_after sep x l :
  join sep (x :: l) = x ++ concat (List.map (fun y => sep ++ y) l).
Proof.
  revert x. induction l as [|y l IH]; intros x.
  - cbn. now rewrite app_nil_r.
  - rewrite join_cons, IH. cbn. now rewrite <- app_assoc.
Qed.

Lemma join_before sep l x r :
  join sep (l ++ x :: r)
  = concat (List.map (fun y => y ++ sep) l) ++ join sep (x :: r).
Proof.
  induction l as [|a l IH]; [reflexivity|].
  cbn [app List.map concat].
  destruct (l ++ x :: r) eqn:E; [now destruct l|].
  rewrite join_cons, IH. now rewrite <- !app_assoc.
Qed.

Lemma block_layout pl sample :
  block pl sample
  = heading pl ++ path sample ++ between pl ++ content sample ++ closing pl.
Proof.
  destruct pl; unfold block, heading, between, closing.
  - now rewrite <- !app_assoc.
  - now rewrite app_nil_r.
Qed.

Lemma combined_layout pl before sample after :
  combined pl (before ++ sample :: after)
  = blocks_before pl before ++ block pl sample ++ blocks_after pl after.
Proof.
  unfold combined, blocks_before, blocks_after.
  rewrite map_app. cbn [List.map]. rewrite join_before, join_after.
  now rewrite !map_map.
Qed.

Lemma template_before_nonempty pl : template_before pl <> [].
Proof. destruct pl; discriminate. Qed.

Lemma template_after_nonempty pl : template_after pl <> [].
Proof. destruct pl; discriminate. Qed.

Lemma prompt_template pl samples :
  prompt pl samples = preamble pl ++ combined pl samples ++ postamble pl.
Proof.
  unfold prompt, preamble, postamble.
  rewrite join_app; [|apply template_before_nonempty|discriminate].
  rewrite (join_app _ [_]); [|discriminate|apply template_after_nonempty].
  cbn [join]. now rewrite <- !app_assoc.
Qed.

Lemma blocks_after_app pl l sample l' :
  blocks_after pl (l ++ sample :: l')
  = blocks_after pl l ++ [10; 10] ++ block pl sample ++ blocks_after pl l'.
Proof.
  unfold blocks_after. rewrite map_app, concat_app. cbn [List.map concat].
  now rewrite <- !app_assoc.
Qed.

(** The block of an earlier sample stands before the block of a later one. *)
Lemma prompt_blocks_in_order pl l1 a l2 b l3 :
  exists before middle after,
    prompt pl (l1 ++ a :: l2 ++ b :: l3)
    = before ++ block pl a ++ middle ++ block pl b ++ after.
Proof.
  exists (preamble pl ++ blocks_before pl l1),
         (blocks_after pl l2 ++ [10; 10]),
         (blocks_after pl l3 ++ postamble pl).
  rewrite prompt_template, combined_layout, blocks_after_app.
  now rewrite <- !app_assoc.
Qed.

Lemma starts_with_app needle s : starts_with needle (needle ++ s) = true.
Proof.
  induction needle as [|x needle IH]; [reflexivity|].
  cbn. now rewrite N.eqb_refl.
Qed.

Lemma occurrences_inside needle pre post :
  (1 <= occurrences needle (pre ++ needle ++ post))%nat.
Proof.
  induction pre as [|c pre IH].
  - cbn [app]. destruct (needle ++ post) eqn:E; cbn [occurrences];
      rewrite <- E, starts_with_app; lia.
  - cbn [app occurrences]. lia.
Qed.

Lemma prompt_text_of pl samples : prompt pl (List.map text_of samples) = prompt pl samples.
Proof.
  unfold prompt, combined. rewrite map_map.
  assert (H : List.map (fun x => block pl (text_of x)) samples
              = List.map (block pl) samples)
    by (apply map_ext; intros sample; now destruct pl).
  now rewrite H.
Qed.

(** ** Extraction client *)

Section Extraction.
Context (env : Env) (pl : Pipeline) (self : Self) (samples : list Sample).

Lemma extraction_raises s e :
  reply_text env self pl samples = Raise e ->
  extraction env pl self samples s
  = {| res := Raise e; final := request_sent pl samples s;
       trace := [add_line Analyzing s; request_sent pl samples s] |}.
Proof.
  unfold reply_text, extraction, create, request_sent. intros H.
  rewrite print_bind, bind_assoc, modify_bind. projections.
  destruct (messages_create env (client self) (request_of (prompt pl samples)))
    as [message|e'].
  - rewrite lift_ok_bind. projections.
    destruct (first_text message); [discriminate|].
    injection H as ->. reflexivity.
  - injection H as ->. reflexivity.
Qed.

Lemma extraction_returns s message text :
  reply_text env self pl samples = Ok (message, text) ->
  extraction env pl self samples s
  = {| res := Ok text; final := extraction_done pl samples message text s;
       trace := extraction_points pl samples message text s |}.
Proof.
  unfold reply_text, extraction, create. intros H.
  rewrite print_bind, bind_assoc, modify_bind. projections.
  destruct (messages_create env (client self) (request_of (prompt pl samples)))
    as [message'|e']; [|discriminate].
  rewrite lift_ok_bind. projections.
  destruct (first_text message') as [text'|]; [|discriminate].
  injection H as -> ->. reflexivity.
Qed.
End Extraction.

Lemma extraction_requests env pl self samples s :
  requests (final (extraction env pl self samples s))
  = requests s ++ [request_of (prompt pl samples)].
Proof.
  destruct (reply_text env self pl samples) as [[message text]|e] eqn:H.
  - now rewrite (extraction_returns _ _ _ _ _ _ _ H).
  - now rewrite (extraction_raises _ _ _ _ _ _ H).
Qed.

(** C3 (amended).  The prompt is a function of the pipeline and of the
    paths and contents of the samples alone: the same samples give the same
    string, whatever the sizes recorded in them, the state and the
    environment, and that string is what [extraction] sends.  The prompt is
    the fixed text before the samples, one block for each sample in input
    order, blocks separated by a blank line, and the fixed text after them;
    the block of a sample holds its path and then its content verbatim.  So
    every path and every content occurs at least once; nothing bounds the
    number of occurrences by one. *)
Theorem prompt_embeds_each_sample (env : Env) (pl : Pipeline) (self : Self)
    (before after : list Sample) (sample : Sample) (s : State) :
  prompt pl (before ++ sample :: after)
  = preamble pl ++ blocks_before pl before
    ++ heading pl ++ path sample ++ between pl ++ content sample ++ closing pl
    ++ blocks_after pl after ++ postamble pl
  /\ (1 <= occurrences (path sample) (prompt pl (before ++ sample :: after)))%nat
  /\ (1 <= occurrences (content sample) (prompt pl (before ++ sample :: after)))%nat
  /\ prompt pl (List.map text_of (before ++ sample :: after))
     = prompt pl (before ++ sample :: after)
  /\ requests (final (extraction env pl self (before ++ sample :: after) s))
     = requests s ++ [request_of (prompt pl (before ++ sample :: after))].
Proof.
  assert (Hlayout : prompt pl (before ++ sample :: after)
    = preamble pl ++ blocks_before pl before
      ++ heading pl ++ path sample ++ between pl ++ content sample ++ closing pl
      ++ blocks_after pl after ++ postamble pl).
  { rewrite prompt_template, combined_layout, block_layout.
    now rewrite <- !app_assoc. }
  split; [exact Hlayout|].
  split.
  { rewrite Hlayout.
    rewrite (app_assoc (preamble pl)), (app_assoc _ (heading pl)).
    apply occurrences_inside. }
  split.
  { rewrite Hlayout.
    rewrite (app_assoc (preamble pl)), (app_assoc _ (heading pl)),
      (app_assoc _ (path sample)), (app_assoc _ (between pl)).
    apply occurrences_inside. }
  split; [apply prompt_text_of | apply extraction_requests].
Qed.

(** C3 as stated fails: the content shared by two files occurs twice. *)
Lemma prompt_repeats_shared_content :
  List.map content twin_samples = [lit "import os"; lit "import os"]
  /\ occurrences (lit "import os") (prompt Coding twin_samples) = 2%nat.
Proof. split; vm_compute; reflexivity. Qed.


(** ** Draft persister *)

Section Persister.
Context (env : Env) (self : Self).

Lemma write_file_open_fails content s e :
  open_w env (output_file self) = Raise e ->
  write_file env (output_file self) content s
  = {| res := Raise e; final := add_opened (output_file self) s;
       trace := [add_opened (output_file self) s] |}.
Proof.
  intros H. unfold write_file. rewrite modify_bind, H. reflexivity.
Qed.

Lemma write_file_writes content s :
  open_w env (output_file self) = Ok tt ->
  utf8_encodable content = true ->
  res (write_file env (output_file self) content s) = Ok tt
  /\ final (write_file env (output_file self) content s)
     = set_files
         (<[output_file self := content]> (<[output_file self := []]> (files s)))
         (add_opened (output_file self) s).
Proof.
  intros H Henc. unfold write_file. rewrite modify_bind, H, Henc. split; reflexivity.
Qed.

Lemma write_file_encode_fails content s :
  open_w env (output_file self) = Ok tt ->
  utf8_encodable content = false ->
  res (write_file env (output_file self) content s) = Raise (UnicodeError content)
  /\ final (write_file env (output_file self) content s)
     = set_files (<[output_file self := []]> (files s))
         (add_opened (output_file self) s).
Proof.
  intros H Henc. unfold write_file. rewrite modify_bind, H, Henc. split; reflexivity.
Qed.

(** What [save_draft] does once it has a text to save. *)
Lemma save_draft_text content c s :
  match content with
  | None => current_draft s
  | Some _ => content
  end = Some c ->
  save_draft env self content s
  = try_except
      (write_file env (output_file self) c;; print (SavedDraft (output_file self)))
      (fun e => print (ErrorSaving e)) s.
Proof.
  intros H. unfold save_draft. rewrite get_bind. rewrite H. reflexivity.
Qed.

Lemma save_draft_nothing s :
  current_draft s = None ->
  save_draft env self None s
  = {| res := Ok tt; final := add_line NoContentToSave s;
       trace := [add_line NoContentToSave s] |}.
Proof.
  intros H. unfold save_draft. rewrite get_bind, H. reflexivity.
Qed.
End Persister.

(** C10.  With no argument and no current draft, [save_draft] prints that
    there is nothing to save and returns: it does not open the output file,
    and every file, present or absent, is as before. *)
Theorem save_draft_without_draft_touches_nothing (env : Env) (self : Self)
    (s : State) :
  current_draft s = None ->
  res (save_draft env self None s) = Ok tt
  /\ opened_for_write (final (save_draft env self None s)) = opened_for_write s
  /\ files (final (save_draft env self None s)) = files s
  /\ Forall (fun s' => files s' = files s
                       /\ opened_for_write s' = opened_for_write s)
       (trace (save_draft env self None s))
  /\ stdout (final (save_draft env self None s)) = stdout s ++ [NoContentToSave].
Proof.
  intros H. rewrite (save_draft_nothing env self s H). cbn.
  repeat split; auto.
Qed.

Lemma save_draft_without_draft_witness :
  res (save_draft (disk_env one_py None endpoint_down true) coding_self None
         (boot {[ OUTPUT_FILE Coding := lit "old guide" ]})) = Ok tt
  /\ files (final (save_draft (disk_env one_py None endpoint_down true)
                     coding_self None
                     (boot {[ OUTPUT_FILE Coding := lit "old guide" ]})))
     !! OUTPUT_FILE Coding = Some (lit "old guide").
Proof.
  pose proof (save_draft_without_draft_touches_nothing
                (disk_env one_py None endpoint_down true) coding_self
                (boot {[ OUTPUT_FILE Coding := lit "old guide" ]}) eq_refl)
    as (Hres & _ & Hfiles & _).
  split; [exact Hres|]. rewrite Hfiles. vm_compute. reflexivity.
Defined.

Section PersisterCases.
Context (env : Env) (self : Self).

Lemma save_draft_saved content c s :
  match content with
  | None => current_draft s
  | Some _ => content
  end = Some c ->
  res (save_draft env self content s) = Ok tt
  /\ final (save_draft env self content s) = saved env self c s.
Proof.
  intros H. rewrite (save_draft_text env self content c s H). unfold saved.
  destruct (open_w env (output_file self)) as [[]|e] eqn:Ho.
  - destruct (utf8_encodable c) eqn:Hc.
    + destruct (write_file_writes env self c s Ho Hc) as [Hres Hfin].
      erewrite try_except_ok by (erewrite bind_res_ok by exact Hres; reflexivity).
      erewrite bind_res_ok by exact Hres. projections. rewrite Hfin.
      split; reflexivity.
    + destruct (write_file_encode_fails env self c s Ho Hc) as [Hres Hfin].
      erewrite try_except_raise
        by (erewrite bind_res_raise by exact Hres; reflexivity).
      erewrite bind_res_raise by exact Hres. projections. rewrite Hfin.
      split; reflexivity.
  - pose proof (write_file_open_fails env self c s e Ho) as Hw.
    erewrite try_except_raise
      by (erewrite bind_res_raise by (rewrite Hw; reflexivity); reflexivity).
    erewrite bind_res_raise by (rewrite Hw; reflexivity). projections.
    rewrite Hw. split; reflexivity.
Qed.

Lemma save_draft_never_raises content s :
  res (save_draft env self content s) = Ok tt.
Proof.
  destruct (match content with
            | None => current_draft s
            | Some _ => content
            end) as [c|] eqn:H.
  - now apply save_draft_saved with (c := c).
  - destruct content; [discriminate|]. now rewrite save_draft_nothing.
Qed.
End PersisterCases.

(** ** The run of [main] *)

Lemma main_run env pl s :
  (res (main env pl s), final (main env pl s)) = main_outcome env pl s.
Proof.
  unfold main, main_outcome, started.
  rewrite print_bind; projections. rewrite print_bind; projections.
  rewrite print_bind; projections.
  destruct (makedirs env SKILL_SET_DIR) as [[]|e];
    [rewrite lift_ok_bind | rewrite lift_raise_bind; reflexivity].
  destruct (path_exists env (Path_of_name (SAMPLES_DIR pl))); cbn [negb];
    [|reflexivity].
  destruct (path_is_dir env (Path_of_name (SAMPLES_DIR pl))); cbn [negb];
    [|reflexivity].
  unfold init. rewrite !bind_assoc.
  destruct (new_client env (getenv_api_key env)) as [[]|e];
    [rewrite lift_ok_bind | rewrite lift_raise_bind; reflexivity].
  cbv beta. rewrite !bind_assoc, modify_bind; projections.
  rewrite !bind_assoc, modify_bind; projections.
  rewrite ret_bind. fold (self_of env pl).
  unfold scan_repository. rewrite bind_assoc, print_bind; projections.
  rewrite ret_bind. fold (discovered env pl).
  change (add_line (Found (length (discovered env pl))) _)
    with (scanned env pl s).
  destruct (discovered env pl) as [|p l] eqn:Hd; [reflexivity|].
  rewrite <- Hd.
  erewrite bind_res_ok by apply read_files_result. projections.
  fold (samples_of env pl). fold (loaded_state env pl s).
  destruct (samples_of env pl) as [|sample rest] eqn:Hs; [reflexivity|].
  rewrite <- Hs.
  destruct (reply_text env (self_of env pl) pl (samples_of env pl))
    as [[message text]|e] eqn:Hr.
  - erewrite bind_res_ok
      by (rewrite (extraction_returns _ _ _ _ _ _ _ Hr); reflexivity).
    rewrite (extraction_returns _ _ _ _ _ _ _ Hr). projections.
    erewrite bind_res_ok by apply save_draft_never_raises. projections.
    destruct (save_draft_saved env (self_of env pl) None text
                (extraction_done pl (samples_of env pl) message text
                   (loaded_state env pl s)) eq_refl) as [_ ->].
    reflexivity.
  - erewrite bind_res_raise
      by (rewrite (extraction_raises _ _ _ _ _ _ Hr); reflexivity).
    rewrite (extraction_raises _ _ _ _ _ _ Hr). reflexivity.
Qed.

Lemma main_res env pl s : res (main env pl s) = fst (main_outcome env pl s).
Proof. now rewrite <- main_run. Qed.

Lemma main_final env pl s : final (main env pl s) = snd (main_outcome env pl s).
Proof. now rewrite <- main_run. Qed.

Lemma add_lines_frame ls s :
  conversation_history (add_lines ls s) = conversation_history s
  /\ current_draft (add_lines ls s) = current_draft s
  /\ files (add_lines ls s) = files s
  /\ requests (add_lines ls s) = requests s
  /\ opened_for_write (add_lines ls s) = opened_for_write s.
Proof.
  revert s. induction ls as [|l ls IH]; intros s; [now repeat split|].
  cbn [add_lines fold_left]. fold (add_lines ls (add_line l s)).
  destruct (IH (add_line l s)) as (-> & -> & -> & -> & ->). now repeat split.
Qed.

Lemma loaded_state_frame env pl s :
  files (loaded_state env pl s) = files s
  /\ requests (loaded_state env pl s) = requests s
  /\ opened_for_write (loaded_state env pl s) = opened_for_write s.
Proof.
  unfold loaded_state. rewrite read_files_final.
  destruct (add_lines_frame
              (List.map (progress_line env pl (self_of env pl)) (discovered env pl)
               ++ [Total (lines_counted env pl (discovered env pl))
                     (length (loaded env pl (self_of env pl) (discovered env pl)))])
              (scanned env pl s)) as (_ & _ & -> & -> & ->).
  now repeat split.
Qed.

(** C6.  When the samples directory is missing or is not a directory, when
    the scan finds no file, or when no file could be read, [main] sends no
    request to the endpoint, opens no file for writing and leaves every file
    as it was.  It returns normally, its last line naming the reason, unless
    creating the output directory or building the client raised before. *)
Theorem main_stops_before_endpoint_and_output (env : Env) (pl : Pipeline)
    (s : State) :
  path_exists env (Path_of_name (SAMPLES_DIR pl)) = false
  \/ path_is_dir env (Path_of_name (SAMPLES_DIR pl)) = false
  \/ discovered env pl = []
  \/ samples_of env pl = [] ->
  requests (final (main env pl s)) = requests s
  /\ opened_for_write (final (main env pl s)) = opened_for_write s
  /\ files (final (main env pl s)) = files s
  /\ (res (main env pl s) = Ok tt
      /\ (exists l, last (stdout (final (main env pl s))) = Some l
                    /\ early_exit_line pl l = true)
      \/ (exists e, res (main env pl s) = Raise e
                    /\ (makedirs env SKILL_SET_DIR = Raise e
                        \/ new_client env (getenv_api_key env) = Raise e))).
Proof.
  intros Hc. rewrite main_res, main_final. unfold main_outcome.
  destruct (loaded_state_frame env pl s) as (Hf & Hr & Ho).
  destruct (makedirs env SKILL_SET_DIR) as [[]|e]; cbn [fst snd];
    [|repeat split; eauto].
  destruct (path_exists env (Path_of_name (SAMPLES_DIR pl))) eqn:He; cbn [negb fst snd];
    [|repeat split; try reflexivity; left; split; [reflexivity|];
      eexists; split; [apply last_snoc|reflexivity]].
  destruct (path_is_dir env (Path_of_name (SAMPLES_DIR pl))) eqn:Hd; cbn [negb fst snd];
    [|repeat split; try reflexivity; left; split; [reflexivity|];
      eexists; split; [apply last_snoc|reflexivity]].
  destruct (new_client env (getenv_api_key env)) as [[]|e]; cbn [fst snd];
    [|repeat split; eauto].
  destruct (discovered env pl) as [|p l] eqn:Hdisc; cbn [fst snd];
    [repeat split; try reflexivity; left; split; [reflexivity|];
      eexists; split; [apply last_snoc|reflexivity]|].
  destruct (samples_of env pl) as [|sample rest] eqn:Hsamp; cbn [fst snd].
  - cbn. rewrite Hf, Hr, Ho. repeat split. left. split; [reflexivity|].
    eexists; split; [apply last_snoc|reflexivity].
  - destruct Hc as [Hc|[Hc|[Hc|Hc]]]; discriminate.
Qed.

Lemma main_stops_before_endpoint_and_output_witness :
  requests (final (main empty_env Coding (boot ∅))) = []
  /\ files (final (main empty_env Coding (boot ∅))) = ∅.
Proof.
  destruct (main_stops_before_endpoint_and_output empty_env Coding (boot ∅))
    as (Hr & _ & Hf & _).
  - left. vm_compute. reflexivity.
  - split; [exact Hr | exact Hf].
Defined.




(** A whole run in a world where everything works: one request is sent, the
    reply is on disk, and the history holds one exchange. *)
Example main_end_to_end :
  res (main keyed_env Coding (boot {[ OUTPUT_FILE Coding := lit "old guide" ]}))
  = Ok tt
  /\ files (final (main keyed_env Coding
                     (boot {[ OUTPUT_FILE Coding := lit "old guide" ]})))
     !! OUTPUT_FILE Coding = Some (lit "# Guide")
  /\ requests (final (main keyed_env Coding
                        (boot {[ OUTPUT_FILE Coding := lit "old guide" ]})))
     = [request_of (prompt Coding
                      [{| path := lit "a.py"; content := lit "x = 1";
                          size_metric := 1 |}])]
  /\ List.map role
       (conversation_history
          (final (main keyed_env Coding
                    (boot {[ OUTPUT_FILE Coding := lit "old guide" ]}))))
     = [user; assistant].
Proof. repeat split; vm_compute; reflexivity. Qed.

(** ** The credential *)

Section Credential.
Context (env : Env) (pl : Pipeline) (k : option (list N)).

Lemma discovered_with_key : discovered (with_key k env) pl = discovered env pl.
Proof. reflexivity. Qed.

Lemma samples_of_with_key : samples_of (with_key k env) pl = samples_of env pl.
Proof. reflexivity. Qed.

Lemma loaded_state_with_key s :
  loaded_state (with_key k env) pl s = loaded_state env pl s.
Proof. unfold loaded_state. rewrite !read_files_final. reflexivity. Qed.

Lemma saved_with_key text s :
  saved (with_key k env) (self_of (with_key k env) pl) text s
  = saved env (self_of env pl) text s.
Proof. reflexivity. Qed.

(** The key reaches the constructor of the client and the endpoint, and
    nothing else. *)
Lemma main_outcome_with_key s :
  main_outcome (with_key k env) pl s
  = match makedirs env SKILL_SET_DIR with
    | Raise e => (Raise e, started pl s)
    | Ok _ =>
        if negb (path_exists env (Path_of_name (SAMPLES_DIR pl))) then
          (Ok tt, add_line (ErrNotExist (SAMPLES_DIR pl)) (started pl s))
        else if negb (path_is_dir env (Path_of_name (SAMPLES_DIR pl))) then
          (Ok tt, add_line (ErrNotDir (SAMPLES_DIR pl)) (started pl s))
        else
          match new_client env k with
          | Raise e => (Raise e, started pl s)
          | Ok _ =>
              match discovered env pl with
              | [] => (Ok tt, add_line NoFilesFound (scanned env pl s))
              | _ :: _ =>
                  match samples_of env pl with
                  | [] => (Ok tt, add_line NoSamplesRead (loaded_state env pl s))
                  | _ :: _ =>
                      match messages_create env k
                              (request_of (prompt pl (samples_of env pl))) with
                      | Raise e =>
                          (Raise e,
                           request_sent pl (samples_of env pl)
                             (loaded_state env pl s))
                      | Ok message =>
                          match first_text message with
                          | Raise e =>
                              (Raise e,
                               request_sent pl (samples_of env pl)
                                 (loaded_state env pl s))
                          | Ok text =>
                              (Ok tt,
                               add_line Complete
                                 (saved env (self_of env pl) text
                                    (extraction_done pl (samples_of env pl)
                                       message text (loaded_state env pl s))))
                          end
                      end
                  end
              end
          end
    end.
Proof.
  unfold main_outcome.
  rewrite discovered_with_key, samples_of_with_key, loaded_state_with_key.
  unfold reply_text.
  cbn [makedirs path_exists path_is_dir new_client getenv_api_key
       messages_create with_key client self_of].
  destruct (makedirs env SKILL_SET_DIR); [|reflexivity].
  destruct (path_exists env _); [|reflexivity].
  destruct (path_is_dir env _); [|reflexivity]. cbn [negb].
  destruct (new_client env k); [|reflexivity].
  destruct (discovered env pl); [reflexivity|].
  destruct (samples_of env pl) eqn:Hs; [reflexivity|]. rewrite <- Hs.
  destruct (messages_create env k _) as [message|e]; [|reflexivity].
  destruct (first_text message); reflexivity.
Qed.
End Credential.

(** C9.  Take two runs of [main] in worlds that differ only in the value of
    the environment variable holding the key, and suppose the client is
    built alike and the endpoint gives the same outcome for the request the
    run sends.  Then both runs end alike and leave the same state: the same
    requests sent (so the same prompt), the same files (so the same draft on
    disk) and the same lines printed. *)
Theorem credential_does_not_reach_prompt_or_draft (env : Env) (pl : Pipeline)
    (s : State) (k1 k2 : option (list N)) :
  new_client env k1 = new_client env k2 ->
  messages_create env k1 (request_of (prompt pl (samples_of env pl)))
  = messages_create env k2 (request_of (prompt pl (samples_of env pl))) ->
  res (main (with_key k1 env) pl s) = res (main (with_key k2 env) pl s)
  /\ requests (final (main (with_key k1 env) pl s))
     = requests (final (main (with_key k2 env) pl s))
  /\ files (final (main (with_key k1 env) pl s))
     = files (final (main (with_key k2 env) pl s))
  /\ stdout (final (main (with_key k1 env) pl s))
     = stdout (final (main (with_key k2 env) pl s)).
Proof.
  intros Hc Hm.
  assert (H : main_outcome (with_key k1 env) pl s
              = main_outcome (with_key k2 env) pl s)
    by (rewrite !main_outcome_with_key, Hc, Hm; reflexivity).
  rewrite !main_res, !main_final, H. repeat split.
Qed.

Lemma credential_does_not_reach_prompt_or_draft_witness :
  requests (final (main (with_key key_one keyed_env) Coding (boot ∅)))
  = requests (final (main (with_key key_two keyed_env) Coding (boot ∅)))
  /\ files (final (main (with_key key_one keyed_env) Coding (boot ∅)))
     = files (final (main (with_key key_two keyed_env) Coding (boot ∅))).
Proof.
  destruct (credential_does_not_reach_prompt_or_draft keyed_env Coding (boot ∅)
              key_one key_two eq_refl eq_refl) as (_ & Hr & Hf & _).
  split; [exact Hr | exact Hf].
Defined.

(** ** Session state *)

Lemma alternates_app r h1 h2 :
  alternates r (h1 ++ h2)
  = alternates r h1
    && alternates (if Nat.even (length h1) then r else other r) h2.
Proof.
  revert r. induction h1 as [|t h1 IH]; intros r; [reflexivity|].
  cbn [app alternates length]. rewrite IH, Nat.even_succ, <- Nat.negb_even.
  destruct (Nat.even (length h1)), r; cbn; now rewrite andb_assoc.
Qed.

Lemma paired_nil : paired [].
Proof. split; reflexivity. Qed.

Lemma paired_user h u :
  paired h -> role u = user -> alternates user (h ++ [u]) = true.
Proof.
  intros [Ha He] Hu. rewrite alternates_app, Ha, He. cbn.
  now rewrite Hu.
Qed.

Lemma paired_exchange h u a :
  paired h -> role u = user -> role a = assistant -> paired ((h ++ [u]) ++ [a]).
Proof.
  intros [Ha He] Hu Hr. split.
  - rewrite <- app_assoc, alternates_app, Ha, He. cbn. now rewrite Hu, Hr.
  - rewrite !length_app. cbn [length]. rewrite Nat.add_1_r, Nat.add_1_r.
    now rewrite !Nat.even_succ_succ.
Qed.

Lemma alternates_no_repeat r h : alternates r h = true -> no_repeat h.
Proof.
  revert r. induction h as [|t h IH]; intros r H i t1 t2 H1 H2; [discriminate|].
  cbn [alternates] in H. apply andb_true_iff in H as [Ht Hh].
  apply bool_decide_eq_true in Ht.
  destruct i as [|i].
  - cbn in H1, H2. injection H1 as <-.
    destruct h as [|t' h']; [discriminate|]. cbn in H2. injection H2 as <-.
    cbn [alternates] in Hh. apply andb_true_iff in Hh as [Ht' _].
    apply bool_decide_eq_true in Ht'. rewrite Ht, Ht'. now destruct r.
  - cbn in H1, H2. exact (IH _ Hh i t1 t2 H1 H2).
Qed.

Lemma last_cons_default {A} (x : A) l d : List.last (x :: l) d = List.last l x.
Proof.
  revert x d. induction l as [|y l IH]; intros x d; [reflexivity|].
  change (List.last (x :: y :: l) d) with (List.last (y :: l) d).
  now rewrite !IH.
Qed.

Lemma append_only_app h points points' s :
  append_only h points ->
  append_only (conversation_history (List.last points s)) points' ->
  (points = [] -> conversation_history s = h) ->
  append_only h (points ++ points').
Proof.
  revert h s. induction points as [|p points IH]; intros h s H1 H2 Hs.
  - cbn in *. now rewrite <- Hs.
  - cbn [app append_only] in *. destruct H1 as (Hp & Ha & H1).
    split; [exact Hp|]. split; [exact Ha|].
    apply (IH _ p); [exact H1| |reflexivity].
    now rewrite last_cons_default in H2.
Qed.

Lemma append_only_alternates h points :
  append_only h points ->
  Forall (fun s => alternates user (conversation_history s) = true) points.
Proof.
  revert h. induction points as [|p points IH]; intros h H; [constructor|].
  destruct H as (_ & Ha & H). constructor; [exact Ha | exact (IH _ H)].
Qed.

Lemma last_app_default {A} (l l' : list A) d :
  List.last (l ++ l') d = List.last l' (List.last l d).
Proof.
  revert d. induction l as [|x l IH]; intros d; [reflexivity|].
  cbn [app]. rewrite !last_cons_default. apply IH.
Qed.

Section WellRun.
Context {A : Type}.

Lemma well_run_still (m : M A) s :
  paired (conversation_history s) ->
  final (m s) = s -> trace (m s) = [] -> well_run m s.
Proof.
  intros Hp Hf Ht. unfold well_run. rewrite Hf, Ht. cbn. auto.
Qed.

Lemma well_run_ret (a : A) s : paired (conversation_history s) -> well_run (mret a) s.
Proof. intros Hp. now apply well_run_still. Qed.

Lemma well_run_raise e s :
  paired (conversation_history s) -> well_run (raise e : M A) s.
Proof. intros Hp. now apply well_run_still. Qed.

Lemma well_run_lift (r : result A) s :
  paired (conversation_history s) -> well_run (lift r) s.
Proof. intros Hp. destruct r; now apply well_run_still. Qed.

Lemma well_run_try_except (m : M A) handler s :
  well_run m s ->
  (forall e, res (m s) = Raise e ->
             paired (conversation_history (final (m s))) ->
             well_run (handler e) (final (m s))) ->
  well_run (try_except m handler) s.
Proof.
  intros (Hf & Ha & Hp) Hh. unfold well_run.
  destruct (res (m s)) as [a|e] eqn:Hr.
  - rewrite (try_except_ok _ _ _ _ Hr). auto.
  - rewrite (try_except_raise _ _ _ _ Hr).
    destruct (Hh e eq_refl Hp) as (Hf' & Ha' & Hp'). projections.
    split; [|split; [|exact Hp']].
    + rewrite last_app_default, <- Hf. exact Hf'.
    + apply (append_only_app _ _ _ s); [exact Ha| now rewrite <- Hf |].
      intros Hnil. reflexivity.
Qed.
End WellRun.

Lemma well_run_bind {A B} (m : M A) (k : A -> M B) s :
  well_run m s ->
  (forall a, res (m s) = Ok a ->
             paired (conversation_history (final (m s))) ->
             well_run (k a) (final (m s))) ->
  well_run (m ≫= k) s.
Proof.
  intros (Hf & Ha & Hp) Hk. unfold well_run.
  destruct (res (m s)) as [a|e] eqn:Hr.
  - rewrite (bind_res_ok _ _ _ _ Hr).
    destruct (Hk a eq_refl Hp) as (Hf' & Ha' & Hp'). projections.
    split; [|split; [|exact Hp']].
    + rewrite last_app_default, <- Hf. exact Hf'.
    + apply (append_only_app _ _ _ s); [exact Ha| now rewrite <- Hf |].
      intros Hnil. reflexivity.
  - rewrite (bind_res_raise _ _ _ _ Hr). projections. auto.
Qed.

Lemma well_run_get s : paired (conversation_history s) -> well_run get s.
Proof. intros Hp. now apply well_run_still. Qed.

Lemma well_run_modify (f : State -> State) s :
  paired (conversation_history s) ->
  conversation_history (f s) = conversation_history s ->
  well_run (modify f) s.
Proof.
  intros Hp Hh. unfold well_run, modify. projections. cbn [List.last append_only].
  rewrite Hh. repeat split; try apply Hp. reflexivity.
Qed.

Lemma well_run_print l s : paired (conversation_history s) -> well_run (print l) s.
Proof. intros Hp. now apply well_run_modify. Qed.

Lemma well_run_paired {A} (m : M A) s :
  well_run m s -> paired (conversation_history (final (m s))).
Proof. now intros (_ & _ & Hp). Qed.

(** Steps that do not assign the history. *)
Ltac well_run_frame :=
  repeat first
    [ assumption
    | apply well_run_print
    | apply well_run_ret
    | apply well_run_lift
    | apply well_run_raise
    | apply well_run_get
    | apply well_run_modify; [|reflexivity]
    | apply well_run_bind; [|intros ? ? ?]
    | apply well_run_try_except; [|intros ? ? ?] ].

Section Methods.
Context (env : Env) (pl : Pipeline) (self : Self).

Lemma well_run_scan_repository max_files extensions s :
  paired (conversation_history s) ->
  well_run (scan_repository env pl self max_files extensions) s.
Proof. intros Hp. unfold scan_repository. well_run_frame. Qed.

Lemma well_run_read_loop filepaths : forall samples total_lines s,
  paired (conversation_history s) ->
  well_run (read_loop env pl self filepaths samples total_lines) s.
Proof.
  induction filepaths as [|p rest IH]; intros samples total_lines s Hp;
    cbn [read_loop]; [well_run_frame|].
  destruct (read_text env p); [destruct (relative_to p (repo_path self))|];
    well_run_frame; now apply IH.
Qed.

Lemma well_run_read_files filepaths s :
  paired (conversation_history s) ->
  well_run (read_files env pl self filepaths) s.
Proof.
  intros Hp. unfold read_files. apply well_run_bind.
  - now apply well_run_read_loop.
  - intros [samples total] _ Hp'. well_run_frame.
Qed.

Lemma well_run_save_draft content s :
  paired (conversation_history s) ->
  well_run (save_draft env self content) s.
Proof.
  intros Hp. unfold save_draft. apply well_run_bind; [now apply well_run_get|].
  intros s' _ Hp'.
  destruct (match content with
            | None => current_draft s'
            | Some _ => content
            end); [|well_run_frame].
  unfold write_file. well_run_frame.
  all: destruct (utf8_encodable l); well_run_frame.
Qed.

Lemma well_run_extraction samples s :
  paired (conversation_history s) ->
  well_run (extraction env pl self samples) s.
Proof.
  intros Hp.
  assert (Hu : alternates user (conversation_history s ++ [user_turn pl samples])
               = true) by now apply paired_user.
  unfold well_run.
  destruct (reply_text env self pl samples) as [[message text]|e] eqn:Hr.
  - rewrite (extraction_returns _ _ _ _ _ _ _ Hr). projections.
    pose proof (paired_exchange _ (user_turn pl samples) (assistant_turn text)
                  Hp eq_refl eq_refl) as Hx.
    split; [reflexivity|]. split; [|exact Hx].
    destruct Hp as [Ha He]. destruct Hx as [Hxa Hxe].
    cbn. repeat split; try reflexivity; try assumption.
    + now apply prefix_app_r.
    + now apply prefix_app_r.
  - rewrite (extraction_raises _ _ _ _ _ _ Hr). projections.
    destruct Hp as [Ha He]. cbn. repeat split; try reflexivity; assumption.
Qed.

Lemma well_run_call c s :
  paired (conversation_history s) -> well_run (call env pl self c) s.
Proof.
  intros Hp. destruct c; cbn [call].
  - apply well_run_bind; [now apply well_run_scan_repository|]. intros.
    now apply well_run_ret.
  - apply well_run_bind; [now apply well_run_read_files|]. intros.
    now apply well_run_ret.
  - apply well_run_bind; [now apply well_run_extraction|]. intros.
    now apply well_run_ret.
  - now apply well_run_save_draft.
Qed.

Lemma well_run_calls cs : forall s,
  paired (conversation_history s) -> well_run (calls env pl self cs) s.
Proof.
  induction cs as [|c cs IH]; intros s Hp; cbn [calls].
  - now apply well_run_ret.
  - apply well_run_bind.
    + apply well_run_try_except; [now apply well_run_call|].
      intros e He Hp'. now apply well_run_ret.
    + intros _ _ Hp'. now apply IH.
Qed.
End Methods.

Lemma well_run_print_bind {A} (l : Line) (k : M A) s :
  paired (conversation_history s) ->
  well_run k (add_line l s) -> well_run (print l;; k) s.
Proof.
  intros Hp Hk. apply well_run_bind; [now apply well_run_print|].
  intros _ _ _. exact Hk.
Qed.

Lemma well_run_init env repository_path output_file_path s :
  conversation_history s = [] ->
  well_run (init env repository_path output_file_path) s.
Proof.
  intros Hs. assert (Hp : paired (conversation_history s))
    by (rewrite Hs; apply paired_nil).
  unfold init. destruct (new_client env (getenv_api_key env)) as [[]|e].
  - apply well_run_bind; [now apply well_run_lift|]. intros _ _ _.
    apply well_run_bind;
      [apply well_run_modify; [exact Hp | symmetry; exact Hs]|].
    intros _ _ Hp1. well_run_frame.
  - apply well_run_bind; [now apply well_run_lift|]. intros a Ha. discriminate Ha.
Qed.

Lemma well_run_main env pl s :
  conversation_history s = [] -> well_run (main env pl) s.
Proof.
  intros Hs. assert (Hp : paired (conversation_history s))
    by (rewrite Hs; apply paired_nil).
  unfold main. do 3 (apply well_run_print_bind; [exact Hp|]).
  destruct (makedirs env SKILL_SET_DIR) as [[]|e];
    (apply well_run_bind; [now apply well_run_lift|]);
    [intros _ _ _ | intros a Ha; discriminate Ha].
  destruct (negb (path_exists env (Path_of_name (SAMPLES_DIR pl))));
    [now apply well_run_print|].
  destruct (negb (path_is_dir env (Path_of_name (SAMPLES_DIR pl))));
    [now apply well_run_print|].
  apply well_run_bind; [apply well_run_init; exact Hs|].
  intros self _ Hp1.
  apply well_run_bind; [now apply well_run_scan_repository|].
  intros [|p l] _ Hp2; [now apply well_run_print|].
  apply well_run_bind; [now apply well_run_read_files|].
  intros [|sample rest] _ Hp3; [now apply well_run_print|].
  apply well_run_bind; [now apply well_run_extraction|].
  intros _ _ Hp4.
  apply well_run_bind; [now apply well_run_save_draft|].
  intros _ _ Hp5. now apply well_run_print.
Qed.

Lemma session_points env pl repository_path output_file_path cs s :
  append_only [] (trace (session env pl repository_path output_file_path cs s))
  /\ final (session env pl repository_path output_file_path cs s)
     = List.last (trace (session env pl repository_path output_file_path cs s)) s.
Proof.
  unfold session, init. rewrite !bind_assoc.
  destruct (new_client env (getenv_api_key env)) as [[]|e];
    [|rewrite lift_raise_bind; split; [exact I | reflexivity]].
  rewrite lift_ok_bind. cbv beta. rewrite !bind_assoc, modify_bind. projections.
  rewrite !bind_assoc, modify_bind. projections. rewrite ret_bind.
  set (self := {| repo_path := repository_path; output_file := output_file_path;
                  client := getenv_api_key env |}).
  destruct (well_run_calls env pl self cs (set_draft None (set_history [] s))
              paired_nil) as (Hf & Ha & _).
  split.
  - cbn [append_only]. repeat split; try reflexivity. exact Ha.
  - rewrite Hf. now rewrite !last_cons_default.
Qed.

Lemma points_no_repeat h points :
  append_only h points ->
  Forall (fun p => no_repeat (conversation_history p)) points.
Proof.
  intros H. eapply Forall_impl; [exact (append_only_alternates _ _ H)|].
  intros p Hp. exact (alternates_no_repeat _ _ Hp).
Qed.

(** C4.  Take an extractor object from its construction through any
    sequence of calls of its methods, also after calls that raised; or take
    a run of [main].  At every point (after every assignment and every
    effect) the conversation history alternates between user and assistant
    turns, starting with a user turn, so no two neighbouring turns have the
    same role; and the history at each point has the history of the point
    before as a prefix, so turns are only ever appended.  The points listed
    end in the final state. *)
Theorem history_alternates_at_every_point (env : Env) (pl : Pipeline)
    (repository_path : Path) (output_file_path : list N) (cs : list Call)
    (s : State) (fs : gmap (list N) (list N)) :
  append_only [] (trace (session env pl repository_path output_file_path cs s))
  /\ Forall (fun p => no_repeat (conversation_history p))
       (trace (session env pl repository_path output_file_path cs s))
  /\ final (session env pl repository_path output_file_path cs s)
     = List.last (trace (session env pl repository_path output_file_path cs s)) s
  /\ append_only [] (trace (main env pl (boot fs)))
  /\ Forall (fun p => no_repeat (conversation_history p))
       (trace (main env pl (boot fs)))
  /\ final (main env pl (boot fs))
     = List.last (trace (main env pl (boot fs))) (boot fs).
Proof.
  destruct (session_points env pl repository_path output_file_path cs s)
    as [Hs Hf].
  destruct (well_run_main env pl (boot fs) eq_refl) as (Hmf & Hm & _).
  split; [exact Hs|]. split; [eapply points_no_repeat; exact Hs|].
  split; [exact Hf|]. split; [exact Hm|].
  split; [eapply points_no_repeat; exact Hm | exact Hmf].
Qed.

(** A session in which the endpoint replies twice: two whole exchanges. *)
Example session_two_exchanges :
  List.map role
    (conversation_history
       (final (session keyed_env Coding (Path_of_name (SAMPLES_DIR Coding))
                 (OUTPUT_FILE Coding) flaky_session (boot ∅))))
  = [user; assistant; user; assistant].
Proof. vm_compute. reflexivity. Qed.

(** * Further properties of the code *)

(** ** [scan_repository]: what it returns *)

Lemma scan_repository_result env pl self max_files extensions s :
  res (scan_repository env pl self max_files extensions s)
  = Ok (scan_extensions env self max_files (effective_extensions pl extensions)).
Proof. reflexivity. Qed.

Lemma scan_matches_take max_files matches : forall code_files,
  scan_matches max_files matches code_files
  = code_files
    ++ take (Z.to_nat (Z.max 1 (max_files - Z.of_nat (length code_files))))
         matches.
Proof.
  induction matches as [|f rest IH]; intros acc; cbn [scan_matches].
  - now rewrite take_nil, app_nil_r.
  - destruct (Z.geb_spec (Z.of_nat (length (acc ++ [f]))) max_files) as [Hge|Hlt];
      rewrite length_app in *; cbn [length] in *.
    + replace (Z.to_nat (Z.max 1 (max_files - Z.of_nat (length acc))))
        with 1%nat by lia.
      reflexivity.
    + rewrite IH, length_app. cbn [length].
      replace (Z.to_nat (Z.max 1 (max_files - Z.of_nat (length acc))))
        with (S (Z.to_nat (Z.max 1 (max_files - Z.of_nat (length acc + 1)))))
        by lia.
      cbn [take]. now rewrite <- app_assoc.
Qed.

Lemma scan_matches_all max_files matches : forall code_files,
  (Z.of_nat (length code_files + length matches) <= max_files)%Z ->
  scan_matches max_files matches code_files = code_files ++ matches.
Proof.
  intros acc H. rewrite scan_matches_take. f_equal. apply take_ge. lia.
Qed.

Lemma scan_fold_all env self max_files extensions : forall code_files,
  (Z.of_nat (length code_files + length (all_matches env self extensions))
   <= max_files)%Z ->
  fold_left
    (fun code_files ext =>
       scan_matches max_files (rglob env (repo_path self) (lit "*" ++ ext))
         code_files)
    extensions code_files
  = code_files ++ all_matches env self extensions.
Proof.
  induction extensions as [|ext rest IH]; intros acc H;
    cbn [fold_left all_matches List.map concat] in *.
  - now rewrite app_nil_r.
  - fold (all_matches env self rest) in *. rewrite length_app in H.
    rewrite scan_matches_all by lia.
    rewrite IH by (rewrite length_app; lia). now rewrite <- app_assoc.
Qed.

Lemma scan_matches_from max_files matches code_files p :
  p ∈ scan_matches max_files matches code_files ->
  p ∈ code_files \/ p ∈ matches.
Proof.
  rewrite scan_matches_take. intros H. apply elem_of_app in H as [H|H]; [now left|].
  right.
  rewrite <- (take_drop (Z.to_nat (Z.max 1 (max_files - Z.of_nat (length code_files))))
                matches).
  apply elem_of_app. now left.
Qed.

Lemma scan_fold_from env self max_files extensions : forall code_files p,
  p ∈ fold_left
        (fun code_files ext =>
           scan_matches max_files (rglob env (repo_path self) (lit "*" ++ ext))
             code_files)
        extensions code_files ->
  p ∈ code_files
  \/ exists ext, ext ∈ extensions
                 /\ p ∈ rglob env (repo_path self) (lit "*" ++ ext).
Proof.
  induction extensions as [|ext rest IH]; intros acc p H; cbn [fold_left] in H.
  - now left.
  - apply IH in H as [H|(ext' & Hin & H)].
    + apply scan_matches_from in H as [H|H]; [now left|].
      right. exists ext. split; [apply list_elem_of_here | exact H].
    + right. exists ext'. split; [now apply list_elem_of_further | exact H].
Qed.


(** X2.  With a single extension, [scan_repository] returns the first
    [max(max_files, 1)] matches of that extension, in traversal order: all
    of them when there are fewer. *)
Theorem scan_repository_one_extension (env : Env) (pl : Pipeline) (self : Self)
    (max_files : Z) (ext : list N) (s : State) :
  res (scan_repository env pl self max_files (Some [ext]) s)
  = Ok (take (Z.to_nat (Z.max 1 max_files))
          (rglob env (repo_path self) (lit "*" ++ ext))).
Proof.
  rewrite scan_repository_result. cbn [effective_extensions].
  unfold scan_extensions. cbn [fold_left]. rewrite scan_matches_take.
  cbn [length app]. now rewrite Z.sub_0_r.
Qed.

(** X3.  When the extensions have no more than [max_files] matches
    altogether, [scan_repository] returns all of them: the matches of the
    first extension in traversal order, then those of the second, and so
    on, a file matching two extensions being listed twice. *)
Theorem scan_repository_under_cap (env : Env) (pl : Pipeline) (self : Self)
    (max_files : Z) (extensions : option (list (list N))) (s : State) :
  (Z.of_nat (length (all_matches env self (effective_extensions pl extensions)))
   <= max_files)%Z ->
  res (scan_repository env pl self max_files extensions s)
  = Ok (all_matches env self (effective_extensions pl extensions)).
Proof.
  intros H. rewrite scan_repository_result. unfold scan_extensions.
  now rewrite scan_fold_all.
Qed.

Lemma scan_repository_under_cap_witness :
  res (scan_repository three_md_env Writing writing_self 20 None (boot ∅))
  = Ok [file_at "writing_samples" "a.md"; file_at "writing_samples" "c.md";
        file_at "writing_samples" "b.txt"].
Proof.
  rewrite (scan_repository_under_cap three_md_env Writing writing_self 20 None
             (boot ∅)).
  - vm_compute. reflexivity.
  - vm_compute. discriminate.
Defined.

(** X4.  Every path that [scan_repository] returns is a match of one of the
    extensions asked for and lies under the repository root, so that
    [relative_to] succeeds on it. *)
Theorem scan_repository_returns_matches (env : Env) (pl : Pipeline)
    (self : Self) (max_files : Z) (extensions : option (list (list N)))
    (s : State) :
  exists code_files,
    res (scan_repository env pl self max_files extensions s) = Ok code_files
    /\ Forall (fun p =>
         (exists ext, ext ∈ effective_extensions pl extensions
                      /\ p ∈ rglob env (repo_path self) (lit "*" ++ ext))
         /\ exists rel, relative_to p (repo_path self) = Ok rel)
       code_files.
Proof.
  eexists. split; [apply scan_repository_result|].
  apply Forall_forall. intros p Hp. split.
  - unfold scan_extensions in Hp. apply scan_fold_from in Hp as [Hp|Hp]; [|exact Hp].
    now apply elem_of_nil in Hp.
  - pose proof (scan_extensions_under_root env self max_files
                  (effective_extensions pl extensions)) as H.
    rewrite Forall_forall in H. destruct (H p Hp) as (rel & ->).
    exists rel. apply relative_to_joinpath.
Qed.

(** ** [read_files]: the samples and the total *)

Section LoaderMore.
Context (env : Env) (pl : Pipeline) (self : Self).

Lemma loaded_app l1 l2 :
  loaded env pl self (l1 ++ l2) = loaded env pl self l1 ++ loaded env pl self l2.
Proof. apply omap_app. Qed.



End LoaderMore.




(** X7.  Loading a list of paths in two parts gives the samples of the first
    part followed by the samples of the second. *)
Theorem read_files_app (env : Env) (pl : Pipeline) (self : Self)
    (first second : list Path) (s s1 s2 : State) :
  exists samples1 samples2,
    res (read_files env pl self first s1) = Ok samples1
    /\ res (read_files env pl self second s2) = Ok samples2
    /\ res (read_files env pl self (first ++ second) s)
       = Ok (samples1 ++ samples2).
Proof.
  exists (loaded env pl self first), (loaded env pl self second).
  rewrite !read_files_result, loaded_app. auto.
Qed.

(** ** The size of a text *)

Lemma splitlines_nil_iff s : splitlines s = [] <-> s = [].
Proof.
  split; [|now intros ->].
  destruct s as [|c rest]; [reflexivity|]. cbn [splitlines].
  destruct (is_linebreak c); [discriminate|]. now destruct (splitlines rest).
Qed.

Lemma split_nil_iff s : split s = [] <-> forallb isspace s = true.
Proof.
  induction s as [|c rest IH]; [easy|].
  cbn [forallb]. destruct (isspace c) eqn:Hc.
  - cbn [split]. rewrite Hc. exact IH.
  - split; [|discriminate]. intros H. now apply split_nonempty in H.
Qed.

Lemma after_boundary_cases {A} (F : list N -> A) c rest :
  (if c =? 13 then
     match rest with
     | 10 :: r => F r
     | _ => F rest
     end
   else F rest) = F (after_boundary c rest).
Proof.
  unfold after_boundary. destruct (c =? 13); [|reflexivity].
  destruct rest as [|[|p] r]; try reflexivity.
  repeat (destruct p as [p|p|]; try reflexivity).
Qed.

Lemma after_boundary_length c rest : (length (after_boundary c rest) <= length rest)%nat.
Proof.
  unfold after_boundary. destruct (c =? 13); [|reflexivity].
  destruct rest as [|[|p] r]; try reflexivity.
  repeat (destruct p as [p|p|]; try reflexivity). cbn [length]. lia.
Qed.

Lemma boundary_segments_from_le n : forall pending s, (length s <= n)%nat ->
  (boundary_segments_from pending s
   <= length s + if pending then 1 else 0)%nat.
Proof.
  induction n as [|n IH]; intros pending s Hn.
  - destruct s; [destruct pending; cbn; lia | cbn in Hn; lia].
  - destruct s as [|c rest]; [destruct pending; cbn; lia|].
    cbn [length] in Hn. cbn [boundary_segments_from length].
    destruct (is_linebreak c).
    + rewrite (after_boundary_cases (boundary_segments_from false)).
      pose proof (after_boundary_length c rest).
      pose proof (IH false (after_boundary c rest) ltac:(lia)) as Hr.
      cbv iota in Hr. destruct pending; lia.
    + pose proof (IH true rest ltac:(lia)) as Hr.
      cbv iota in Hr. destruct pending; lia.
Qed.

Lemma token_starts_le after_space s : (token_starts after_space s <= length s)%nat.
Proof.
  revert after_space. induction s as [|c rest IH]; intros b; [reflexivity|].
  cbn [token_starts length]. destruct (isspace c).
  - specialize (IH true). lia.
  - specialize (IH false). destruct b; lia.
Qed.

(** X8.  The size recorded for a text is zero exactly for the empty text in
    the coding pipeline, and exactly for a text made of whitespace only
    (the empty text included) in the writing pipeline; it never exceeds the
    number of characters of the text. *)
Theorem count_size_zero_and_bound (pl : Pipeline) (text : list N) :
  (count_size pl text = 0%nat
   <-> match pl with
       | Coding => text = []
       | Writing => forallb isspace text = true
       end)
  /\ (count_size pl text <= length text)%nat.
Proof.
  split.
  - destruct pl; cbn [count_size]; rewrite length_zero_iff_nil;
      [apply splitlines_nil_iff | apply split_nil_iff].
  - rewrite count_size_counted. destruct pl; cbn [counted].
    + pose proof (boundary_segments_from_le (length text) false text ltac:(lia))
        as H.
      cbv iota in H. unfold boundary_segments. lia.
    + apply token_starts_le.
Qed.

(** ** [extraction] and [save_draft]: what they leave alone *)

(** X9.  One call of [extraction] sends exactly one request, whether it
    returns or raises, and at no point opens or changes a file. *)
Theorem extraction_one_request_no_file (env : Env) (pl : Pipeline) (self : Self)
    (samples : list Sample) (s : State) :
  requests (final (extraction env pl self samples s))
  = requests s ++ [request_of (prompt pl samples)]
  /\ files (final (extraction env pl self samples s)) = files s
  /\ opened_for_write (final (extraction env pl self samples s))
     = opened_for_write s
  /\ Forall (fun p => files p = files s
                      /\ opened_for_write p = opened_for_write s)
       (trace (extraction env pl self samples s)).
Proof.
  destruct (reply_text env self pl samples) as [[message text]|e] eqn:H.
  - rewrite (extraction_returns _ _ _ _ _ _ _ H). cbn.
    repeat split; repeat constructor.
  - rewrite (extraction_raises _ _ _ _ _ _ H). cbn.
    repeat split; repeat constructor.
Qed.

Lemma saved_frame env self c s :
  conversation_history (saved env self c s) = conversation_history s
  /\ current_draft (saved env self c s) = current_draft s
  /\ requests (saved env self c s) = requests s
  /\ (forall p, p <> output_file self ->
                files (saved env self c s) !! p = files s !! p)
  /\ (opened_for_write (saved env self c s)
      = opened_for_write s ++ [output_file self]).
Proof.
  unfold saved.
  destruct (open_w env (output_file self)) as [[]|e];
    [destruct (utf8_encodable c)|]; cbn; repeat split; try reflexivity;
    intros p Hp; now rewrite ?lookup_insert_ne by congruence.
Qed.

Lemma save_draft_final env self content s :
  final (save_draft env self content s)
  = match match content with
          | None => current_draft s
          | Some _ => content
          end with
    | None => add_line NoContentToSave s
    | Some c => saved env self c s
    end.
Proof.
  destruct (match content with
            | None => current_draft s
            | Some _ => content
            end) as [c|] eqn:H.
  - now destruct (save_draft_saved env self content c s H).
  - destruct content; [discriminate|]. now rewrite save_draft_nothing.
Qed.


(** X11.  Saving the same text twice in a row leaves the files as saving it
    once does. *)
Theorem save_draft_twice (env : Env) (self : Self) (c : list N) (s : State) :
  files (final (save_draft env self (Some c)
                  (final (save_draft env self (Some c) s))))
  = files (final (save_draft env self (Some c) s)).
Proof.
  rewrite !save_draft_final. unfold saved.
  destruct (open_w env (output_file self)) as [[]|e];
    [destruct (utf8_encodable c)|]; cbn; try reflexivity;
    now rewrite !insert_insert_eq.
Qed.

(** X12.  When the output path opens and the text holds a code point that
    UTF-8 cannot encode (a surrogate), [save_draft] still returns normally
    and prints the error line, and the output file is left empty: what it
    held before is lost. *)
Theorem save_draft_unencodable_empties_file (env : Env) (self : Self)
    (c : list N) (s : State) :
  open_w env (output_file self) = Ok tt ->
  utf8_encodable c = false ->
  res (save_draft env self (Some c) s) = Ok tt
  /\ files (final (save_draft env self (Some c) s))
     = <[output_file self := []]> (files s)
  /\ last (stdout (final (save_draft env self (Some c) s)))
     = Some (ErrorSaving (UnicodeError c)).
Proof.
  intros Ho Hc. split; [apply save_draft_never_raises|].
  rewrite save_draft_final. unfold saved. rewrite Ho, Hc. cbn.
  split; [reflexivity | apply last_snoc].
Qed.

Lemma save_draft_unencodable_witness :
  files (final (save_draft keyed_env coding_self (Some surrogate_text)
                  (boot {[ OUTPUT_FILE Coding := lit "old guide" ]})))
  !! OUTPUT_FILE Coding = Some [].
Proof.
  destruct (save_draft_unencodable_empties_file keyed_env coding_self
              surrogate_text (boot {[ OUTPUT_FILE Coding := lit "old guide" ]})
              eq_refl eq_refl) as (_ & -> & _).
  vm_compute. reflexivity.
Defined.

(** ** [main]: its footprint *)

Lemma discovered_cap env pl : (length (discovered env pl) <= file_cap pl)%nat.
Proof.
  unfold discovered.
  destruct pl; cbn [default_extensions file_cap].
  - pose proof (scan_extensions_bound MAX_FILES env (self_of env Coding)
                  (lit ".py") []) as H.
    unfold MAX_FILES in *. cbn [length] in H. lia.
  - pose proof (scan_extensions_bound MAX_FILES env (self_of env Writing)
                  (lit ".md") [lit ".txt"]) as H.
    unfold MAX_FILES in *. cbn [length] in H. lia.
Qed.

Lemma samples_of_le env pl : (length (samples_of env pl) <= length (discovered env pl))%nat.
Proof. unfold samples_of. rewrite loaded_length. lia. Qed.

(** X13.  When the extraction raises in a run of [main], the exception ends
    the run: one request was sent, no file was opened for writing or
    changed, there is no current draft and the conversation history is
    empty. *)
Theorem main_extraction_failure_leaves_no_artifact (env : Env) (pl : Pipeline)
    (e : exn) (s : State) :
  fails_at_endpoint env pl e ->
  res (main env pl s) = Raise e
  /\ requests (final (main env pl s))
     = requests s ++ [request_of (prompt pl (samples_of env pl))]
  /\ files (final (main env pl s)) = files s
  /\ opened_for_write (final (main env pl s)) = opened_for_write s
  /\ current_draft (final (main env pl s)) = None
  /\ conversation_history (final (main env pl s)) = [].
Proof.
  intros (Hm & He & Hd & Hc & Hdisc & Hsamp & Hr).
  rewrite main_res, main_final. unfold main_outcome.
  rewrite Hm, He, Hd, Hc, Hr. cbn [negb].
  destruct (discovered env pl); [congruence|].
  destruct (samples_of env pl) eqn:Hs; [congruence|]. rewrite <- Hs.
  cbn [fst snd]. unfold loaded_state. rewrite read_files_final.
  destruct (add_lines_frame
              (List.map (progress_line env pl (self_of env pl)) (discovered env pl)
               ++ [Total (lines_counted env pl (discovered env pl))
                     (length (loaded env pl (self_of env pl) (discovered env pl)))])
              (scanned env pl s)) as (Hh & Hdr & Hf & Hq & Ho).
  cbn. rewrite Hh, Hdr, Hf, Hq, Ho. repeat split.
Qed.

Lemma main_extraction_failure_witness :
  res (main down_env Coding (boot ∅))
  = Raise (APIError (lit "connection error"))
  /\ files (final (main down_env Coding (boot ∅))) = ∅.
Proof.
  assert (H : fails_at_endpoint down_env Coding
                (APIError (lit "connection error"))).
  { repeat split; try (vm_compute; reflexivity); vm_compute; discriminate. }
  destruct (main_extraction_failure_leaves_no_artifact down_env Coding _
              (boot ∅) H) as (Hres & _ & Hf & _).
  split; [exact Hres | exact Hf].
Defined.

(** X14.  Whatever the world answers, a run of [main] sends at most one
    request, which carries the prompt built from the samples loaded from
    the scanned files; it opens for writing at most the output file, once;
    it changes no other file; and it loads at most 20 files in the coding
    pipeline and at most 21 in the writing pipeline. *)
Theorem main_footprint (env : Env) (pl : Pipeline) (s : State) :
  (requests (final (main env pl s)) = requests s
   \/ requests (final (main env pl s))
      = requests s ++ [request_of (prompt pl (samples_of env pl))])
  /\ (opened_for_write (final (main env pl s)) = opened_for_write s
      \/ opened_for_write (final (main env pl s))
         = opened_for_write s ++ [OUTPUT_FILE pl])
  /\ (forall p, p <> OUTPUT_FILE pl ->
                files (final (main env pl s)) !! p = files s !! p)
  /\ (length (samples_of env pl) <= length (discovered env pl) <= file_cap pl)%nat.
Proof.
  pose proof (discovered_cap env pl) as Hcap.
  pose proof (samples_of_le env pl) as Hle.
  split; [|split; [|split; [|lia]]]; rewrite main_final; unfold main_outcome;
    destruct (loaded_state_frame env pl s) as (Hf & Hq & Ho);
    (destruct (makedirs env SKILL_SET_DIR) as [[]|e0]; [|cbn; auto]);
    (destruct (path_exists env _); cbn [negb]; [|cbn; auto]);
    (destruct (path_is_dir env _); cbn [negb]; [|cbn; auto]);
    (destruct (new_client env _) as [[]|e1]; [|cbn; auto]);
    (destruct (discovered env pl); [cbn; auto|]);
    (destruct (samples_of env pl) eqn:Hs; [cbn; rewrite ?Hf, ?Hq, ?Ho; auto|]);
    rewrite <- Hs;
    (destruct (reply_text env (self_of env pl) pl (samples_of env pl))
       as [[message text]|e2]; cbn [snd]).
  - right.
    destruct (saved_frame env (self_of env pl) text
                (extraction_done pl (samples_of env pl) message text
                   (loaded_state env pl s))) as (_ & _ & Hr & _).
    cbn [requests add_line]. rewrite Hr. cbn. now rewrite Hq.
  - right. cbn. now rewrite Hq.
  - right.
    destruct (saved_frame env (self_of env pl) text
                (extraction_done pl (samples_of env pl) message text
                   (loaded_state env pl s))) as (_ & _ & _ & _ & Hop).
    cbn [opened_for_write add_line]. rewrite Hop. cbn. now rewrite Ho.
  - left. cbn. now rewrite Ho.
  - intros other Hother.
    destruct (saved_frame env (self_of env pl) text
                (extraction_done pl (samples_of env pl) message text
                   (loaded_state env pl s))) as (_ & _ & _ & Hfs & _).
    cbn [files add_line]. rewrite (Hfs other Hother). cbn. now rewrite Hf.
  - intros other Hother. cbn. now rewrite Hf.
Qed.

Lemma extraction_done_fields pl samples message text s :
  conversation_history (extraction_done pl samples message text s)
  = conversation_history s ++ [user_turn pl samples; assistant_turn text]
  /\ current_draft (extraction_done pl samples message text s) = Some text
  /\ requests (extraction_done pl samples message text s)
     = requests s ++ [request_of (prompt pl samples)]
  /\ files (extraction_done pl samples message text s) = files s.
Proof. cbn. now rewrite <- app_assoc. Qed.




(** ** The extractor object across calls *)

Lemma ret_final {A} (a : A) s : final ((mret a : M A) s) = s.
Proof. reflexivity. Qed.

Section Object.
Context (env : Env) (pl : Pipeline) (self : Self).

Lemma call_final c s :
  (conversation_history (final (call env pl self c s)) = conversation_history s
   /\ current_draft (final (call env pl self c s)) = current_draft s)
  \/ exists samples d,
       c = CallExtraction samples
       /\ conversation_history (final (call env pl self c s))
          = conversation_history s ++ [user_turn pl samples; assistant_turn d]
       /\ current_draft (final (call env pl self c s)) = Some d.
Proof.
  destruct c as [max_files extensions|filepaths|samples|content]; cbn [call].
  - left. split; reflexivity.
  - left. erewrite bind_res_ok by apply read_files_result. projections.
    rewrite ret_final, read_files_final.
    destruct (add_lines_frame
                (List.map (progress_line env pl self) filepaths
                 ++ [Total (lines_counted env pl filepaths)
                       (length (loaded env pl self filepaths))]) s)
      as (-> & -> & _).
    split; reflexivity.
  - destruct (reply_text env self pl samples) as [[message text]|e] eqn:H.
    + right. exists samples, text.
      erewrite bind_res_ok
        by (rewrite (extraction_returns _ _ _ _ _ _ _ H); reflexivity).
      rewrite (extraction_returns _ _ _ _ _ _ _ H). projections.
      rewrite ret_final.
      destruct (extraction_done_fields pl samples message text s)
        as (-> & -> & _).
      repeat split.
    + left.
      erewrite bind_res_raise
        by (rewrite (extraction_raises _ _ _ _ _ _ H); reflexivity).
      rewrite (extraction_raises _ _ _ _ _ _ H). split; reflexivity.
  - left. rewrite save_draft_final.
    destruct (match content with
              | None => current_draft s
              | Some _ => content
              end) as [c|]; [|split; reflexivity].
    destruct (saved_frame env self c s) as (-> & -> & _). split; reflexivity.
Qed.

Lemma guarded_call c s :
  res (try_except (call env pl self c) (fun _ => mret tt) s) = Ok tt
  /\ final (try_except (call env pl self c) (fun _ => mret tt) s)
     = final (call env pl self c s).
Proof.
  destruct (res (call env pl self c s)) as [[]|e] eqn:H.
  - rewrite (try_except_ok _ _ _ _ H). auto.
  - rewrite (try_except_raise _ _ _ _ H). split; reflexivity.
Qed.

Lemma draft_is_last_turn_call c s :
  draft_is_last_turn s -> draft_is_last_turn (final (call env pl self c s)).
Proof.
  intros Hs. unfold draft_is_last_turn in *.
  destruct (call_final c s) as [[Hh Hd]|(samples & d & -> & Hh & Hd)].
  - now rewrite Hh, Hd.
  - rewrite Hh, Hd. exists (conversation_history s), (user_turn pl samples).
    split; reflexivity.
Qed.

Lemma calls_final cs : forall s,
  draft_is_last_turn s ->
  res (calls env pl self cs s) = Ok tt
  /\ draft_is_last_turn (final (calls env pl self cs s)).
Proof.
  induction cs as [|c cs IH]; intros s Hs; cbn [calls]; [split; [reflexivity|exact Hs]|].
  destruct (guarded_call c s) as [Hres Hfin].
  erewrite bind_res_ok by exact Hres. projections. rewrite Hfin.
  apply IH. now apply draft_is_last_turn_call.
Qed.
End Object.

(** X16.  Take an extractor object whose construction succeeded, through
    any sequence of calls of its methods, the caller going on after a call
    that raised.  Afterwards the conversation history consists of whole
    exchanges, and the current draft is the content of its last turn: there
    is no draft exactly when no extraction has succeeded, and otherwise the
    history ends with a user turn followed by the assistant turn holding
    the draft. *)
Theorem session_draft_is_last_turn (env : Env) (pl : Pipeline)
    (repository_path : Path) (output_file_path : list N) (cs : list Call)
    (s : State) :
  new_client env (getenv_api_key env) = Ok tt ->
  res (session env pl repository_path output_file_path cs s) = Ok tt
  /\ draft_is_last_turn
       (final (session env pl repository_path output_file_path cs s))
  /\ paired (conversation_history
               (final (session env pl repository_path output_file_path cs s))).
Proof.
  intros Hc. unfold session, init. rewrite !bind_assoc, Hc.
  rewrite lift_ok_bind. cbv beta. rewrite !bind_assoc, modify_bind. projections.
  rewrite !bind_assoc, modify_bind. projections. rewrite ret_bind.
  set (self := {| repo_path := repository_path; output_file := output_file_path;
                  client := getenv_api_key env |}).
  destruct (calls_final env pl self cs (set_draft None (set_history [] s)))
    as [Hres Hinv]; [reflexivity|].
  split; [exact Hres|]. split; [exact Hinv|].
  apply (well_run_paired (calls env pl self cs)), well_run_calls. apply paired_nil.
Qed.

Lemma session_draft_is_last_turn_witness :
  draft_is_last_turn
    (final (session keyed_env Coding (Path_of_name (SAMPLES_DIR Coding))
              (OUTPUT_FILE Coding) flaky_session (boot ∅))).
Proof.
  exact (proj1 (proj2 (session_draft_is_last_turn keyed_env Coding
                         (Path_of_name (SAMPLES_DIR Coding))
                         (OUTPUT_FILE Coding) flaky_session (boot ∅) eq_refl))).
Defined.

(** X17.  Two extractions that both get a reply text: the history grows by
    the two exchanges in call order, the current draft is the second reply,
    and the second request carries the second prompt alone, not the earlier
    exchange. *)
Theorem extraction_twice (env : Env) (pl : Pipeline) (self : Self)
    (samples1 samples2 : list Sample) (message1 message2 : Message)
    (text1 text2 : list N) (s : State) :
  reply_text env self pl samples1 = Ok (message1, text1) ->
  reply_text env self pl samples2 = Ok (message2, text2) ->
  conversation_history
    (final (extraction env pl self samples2
              (final (extraction env pl self samples1 s))))
  = conversation_history s
    ++ [user_turn pl samples1; assistant_turn text1;
        user_turn pl samples2; assistant_turn text2]
  /\ current_draft
       (final (extraction env pl self samples2
                 (final (extraction env pl self samples1 s))))
     = Some text2
  /\ requests
       (final (extraction env pl self samples2
                 (final (extraction env pl self samples1 s))))
     = requests s
       ++ [request_of (prompt pl samples1); request_of (prompt pl samples2)]
  /\ messages (request_of (prompt pl samples2)) = [user_turn pl samples2].
Proof.
  intros H1 H2.
  rewrite (extraction_returns _ _ _ _ _ _ _ H1). projections.
  rewrite (extraction_returns _ _ _ _ _ _ _ H2). projections.
  destruct (extraction_done_fields pl samples2 message2 text2
              (extraction_done pl samples1 message1 text1 s))
    as (-> & -> & -> & _).
  destruct (extraction_done_fields pl samples1 message1 text1 s)
    as (-> & _ & -> & _).
  rewrite <- !app_assoc. repeat split.
Qed.

Lemma extraction_twice_witness :
  List.map role
    (conversation_history
       (final (extraction keyed_env Coding coding_self twin_samples
                 (final (extraction keyed_env Coding coding_self twin_samples
                           (boot ∅))))))
  = [user; assistant; user; assistant].
Proof.
  destruct (extraction_twice keyed_env Coding coding_self twin_samples
              twin_samples guide_message guide_message (lit "# Guide")
              (lit "# Guide") (boot ∅) eq_refl eq_refl) as (-> & _).
  reflexivity.
Defined.

(** ** [main] before the pipeline starts *)

(** X18.  When creating the output directory raises, or when the samples
    directory is in place and building the client raises, [main] ends with
    that exception having printed the banner only: nothing was scanned, no
    request was sent, no file was opened or changed. *)
Theorem main_setup_failure (env : Env) (pl : Pipeline) (e : exn) (s : State) :
  makedirs env SKILL_SET_DIR = Raise e
  \/ (makedirs env SKILL_SET_DIR = Ok tt
      /\ path_exists env (Path_of_name (SAMPLES_DIR pl)) = true
      /\ path_is_dir env (Path_of_name (SAMPLES_DIR pl)) = true
      /\ new_client env (getenv_api_key env) = Raise e) ->
  res (main env pl s) = Raise e
  /\ stdout (final (main env pl s)) = stdout s ++ [Banner; Title pl; Banner]
  /\ requests (final (main env pl s)) = requests s
  /\ opened_for_write (final (main env pl s)) = opened_for_write s
  /\ files (final (main env pl s)) = files s.
Proof.
  intros H. rewrite main_res, main_final. unfold main_outcome.
  destruct H as [Hm|(Hm & He & Hd & Hc)].
  - rewrite Hm. cbn. rewrite <- !app_assoc. repeat split.
  - rewrite Hm, He, Hd, Hc. cbn. rewrite <- !app_assoc. repeat split.
Qed.

Lemma main_setup_failure_witness :
  res (main locked_env Coding (boot ∅))
  = Raise (OSError (lit "Permission denied"))
  /\ stdout (final (main locked_env Coding (boot ∅)))
     = [Banner; Title Coding; Banner].
Proof.
  destruct (main_setup_failure locked_env Coding
              (OSError (lit "Permission denied")) (boot ∅)
              (or_introl eq_refl)) as (Hres & Hout & _).
  split; [exact Hres | exact Hout].
Defined.

(** ** The scanner and the loader only print *)


(** ** Sizes add up *)

Lemma token_starts_app_space after_space s1 sp s2 :
  isspace sp = true ->
  token_starts after_space (s1 ++ sp :: s2)
  = (token_starts after_space s1 + token_starts true s2)%nat.
Proof.
  intros Hsp. revert after_space.
  induction s1 as [|c rest IH]; intros b; cbn [app token_starts].
  - now rewrite Hsp.
  - destruct (isspace c); rewrite IH; lia.
Qed.

Lemma boundary_segments_app_newline n : forall pending s1 s2,
  (length s1 <= n)%nat ->
  boundary_segments_from pending (s1 ++ 10 :: s2)
  = (boundary_segments_from pending (s1 ++ [10%N])
     + boundary_segments_from false s2)%nat.
Proof.
  induction n as [|n IH]; intros pending s1 s2 Hn.
  - destruct s1; [reflexivity | cbn in Hn; lia].
  - destruct s1 as [|c rest]; [reflexivity|].
    cbn [length] in Hn. cbn [app boundary_segments_from].
    destruct (is_linebreak c); [|apply IH; lia].
    rewrite !(after_boundary_cases (boundary_segments_from false)).
    cbn [Nat.add]. f_equal.
    unfold after_boundary. destruct (c =? 13); [|apply IH; lia].
    destruct rest as [|c' r]; cbn [app]; [reflexivity|].
    assert (Hr : (length r <= n)%nat) by (cbn [length] in Hn; lia).
    assert (Hcr : (length (c' :: r) <= n)%nat) by lia.
    pose proof (IH false r s2 Hr) as IHr.
    pose proof (IH false (c' :: r) s2 Hcr) as IHcr. cbn [app] in IHcr.
    destruct c' as [|p]; [exact IHcr|].
    repeat (destruct p as [p|p|]; try exact IHcr). exact IHr.
Qed.

(** X20.  Sizes add up over parts.  In the writing pipeline the size of two
    texts joined by one whitespace character is the sum of their sizes; in
    the coding pipeline the size of a text that continues after a newline
    is the size of the part up to and including that newline plus the size
    of the rest. *)
Theorem count_size_additive (first second : list N) (sp : N) :
  (isspace sp = true ->
   count_size Writing (first ++ sp :: second)
   = (count_size Writing first + count_size Writing second)%nat)
  /\ count_size Coding (first ++ 10 :: second)
     = (count_size Coding (first ++ [10%N]) + count_size Coding second)%nat.
Proof.
  rewrite !count_size_counted. cbn [counted]. split.
  - intros Hsp. unfold whitespace_tokens. now apply token_starts_app_space.
  - unfold boundary_segments.
    apply (boundary_segments_app_newline (length first)). lia.
Qed.

Lemma count_size_additive_witness :
  count_size Writing (lit "one two" ++ 32 :: lit "three") = 3%nat.
Proof.
  rewrite (proj1 (count_size_additive (lit "one two") (lit "three") 32) eq_refl).
  reflexivity.
Defined.
